(** * The change-synchronisation engine of the ERP-CRM application

    A shallow embedding of
    - [src/database/sync_queue.py]   (the [SyncQueue] table),
    - [src/services/sync_service.py] ([SyncService]),
    - [src/services/sync_manager.py] ([SyncManager]),
    - [src/database/mixins.py]       ([SyncableMixin]),
    and the properties of the outbox queue, the pusher, the scheduler and
    the status reporter that are stated about them.

    Conventions.  The local database is a value that is passed around
    explicitly; what the outside world decides (the answer of the remote
    service, whether a local [commit] raises, the wall clock) is read from
    oracles that thread an abstract [World].  Python dictionaries with a
    varying key set are [gmap string Value]; rows are records. *)

From stdpp Require Import base numbers option list strings gmap relations sorting.

Local Open Scope Z_scope.

(** ** Data model *)

(** The value of the JSON column [data]: the dictionary built by
    [SyncableMixin.to_dict], column name to rendered value. *)
Definition Payload : Type := list (string * string).

(** A row of the table [sync_queue].  [status] and [operation] are
    [String(20)] columns, hence strings here as well; [created_at] and
    [synced_at] are instants counted in seconds. *)
Module SyncQueue.
Record row : Type := Row {
    id : Z;
    table_name : string;
    record_id : string;
    operation : string;
    data : option Payload;
    status : string;
    retry_count : Z;
    error_message : option string;
    created_at : Z;
    synced_at : option Z
  }.

Definition set_status (s : string) (r : row) : row :=
    Row (id r) (table_name r) (record_id r) (operation r) (data r)
        s (retry_count r) (error_message r) (created_at r) (synced_at r).

Definition set_retry_count (n : Z) (r : row) : row :=
    Row (id r) (table_name r) (record_id r) (operation r) (data r)
        (status r) n (error_message r) (created_at r) (synced_at r).

Definition set_error_message (e : option string) (r : row) : row :=
    Row (id r) (table_name r) (record_id r) (operation r) (data r)
        (status r) (retry_count r) e (created_at r) (synced_at r).

Definition set_synced_at (t : option Z) (r : row) : row :=
    Row (id r) (table_name r) (record_id r) (operation r) (data r)
        (status r) (retry_count r) (error_message r) (created_at r) t.
End SyncQueue.

Import SyncQueue.

#[global] Instance row_eq_dec : EqDecision row.
Proof. solve_decision. Defined.

(** The committed content of [sync_queue], in the order in which a scan of
    the table yields its rows. *)
Definition Table : Type := list row.

Definition ids (tbl : Table) : list Z := id <$> tbl.

(** The rows a query [filter(SyncQueue.status == s)] yields. *)
Definition with_status (s : string) (tbl : Table) : Table :=
  filter (λ r, status r = s) tbl.

(** [UPDATE sync_queue SET ... WHERE id = it.id]: what flushing a modified
    instance does to the table. *)
Definition update_row (it : row) (tbl : Table) : Table :=
  (λ r, if decide (id r = id it) then it else r) <$> tbl.

(** The integer primary key of a fresh row: one above the largest key in
    the table. *)
Definition next_id (tbl : Table) : Z := foldr Z.max 0 (ids tbl) + 1.

(** ** The remote capability *)

(** The calls [_push_item] builds on [self.supabase.table(name)]. *)
Inductive Request : Type :=
| Insert (table : string) (values : option Payload)
| Update (table : string) (values : option Payload) (eq_id : string)
| Delete (table : string) (eq_id : string).

(** What [.execute()] does: it returns a result whose [data] has some
    number of rows, or it raises. *)
Inductive Response : Type :=
| Data (rows : nat)
| Raises (msg : string).

(** ** Statistics of a batch: the dictionary
    [{"pushed": _, "failed": _, "skipped": _}]. *)
Record Stats : Type := MkStats { pushed : Z; failed : Z; skipped : Z }.

Definition no_stats : Stats := MkStats 0 0 0.
Definition incr_pushed (s : Stats) : Stats :=
  MkStats (pushed s + 1) (failed s) (skipped s).
Definition incr_failed (s : Stats) : Stats :=
  MkStats (pushed s) (failed s + 1) (skipped s).

(** ** The service object *)

Record Client : Type := MkClient { url : string; key : string }.

Record SyncService : Type := MkService {
  enabled : bool;
  supabase : option Client
}.

Definition is_enabled (svc : SyncService) : bool :=
  enabled svc && bool_decide (supabase svc ≠ None).

(** What a Python call does: it returns a value or an exception leaves it. *)
Inductive Outcome (A : Type) : Type :=
| Returns (a : A)
| Raise (e : string).
Arguments Returns {A} a.
Arguments Raise {A} e.

(** Whether the per-item handler of the batch loop contained the error
    ([Continue]) or an exception left the [for] loop ([Abort]). *)
Inductive Flow : Type := Continue | Abort.

(** ** [SyncService] against an arbitrary outside world *)
Section Service.
Context {World : Type}.

  (** [execute q w]: the remote service's answer to [q]. *)
Variable execute : Request → World → Response * World.
  (** [db_commit w]: [None] when [db.commit()] on the local store goes
      through, [Some e] when it raises [e]. *)
Variable db_commit : World → option string * World.
  (** [datetime.utcnow()]. *)
Variable utcnow : World → Z * World.

  (** [SyncService.add_to_queue]: a session of its own, one [INSERT], one
      [commit]; on an error [rollback] and re-raise. *)
Definition add_to_queue (svc : SyncService)
      (table_name record_id operation : string) (data : option Payload)
      (w : World) (tbl : Table) : Outcome (option row) * World * Table :=
    if negb (is_enabled svc) then (Returns None, w, tbl)
    else
      let '(now, w1) := utcnow w in
      let queue_item :=
        Row (next_id tbl) table_name record_id operation data
            "pending" 0 None now None in
      match db_commit w1 with
      | (None, w2) => (Returns (Some queue_item), w2, tbl ++ [queue_item])
      | (Some e, w2) => (Raise e, w2, tbl)
      end.

  (** [SyncService._push_item]: every exception is caught and reported as
      [False]; an operation other than the three known ones is [False]
      without a call. *)
Definition _push_item (item : row) (w : World) : bool * World :=
    if decide (operation item = "create") then
      match execute (Insert (table_name item) (data item)) w with
      | (Data n, w') => (bool_decide (0 < n)%nat, w')
      | (Raises _, w') => (false, w')
      end
    else if decide (operation item = "update") then
      match execute (Update (table_name item) (data item) (record_id item)) w with
      | (Data n, w') => (bool_decide (0 < n)%nat, w')
      | (Raises _, w') => (false, w')
      end
    else if decide (operation item = "delete") then
      match execute (Delete (table_name item) (record_id item)) w with
      | (Data _, w') => (true, w')
      | (Raises _, w') => (false, w')
      end
    else (false, w).

  (** The [except Exception as e] clause of the batch loop.  [db.rollback()]
      expires the instance, so the attributes read afterwards are those of
      the last committed state [committed] of the row. *)
Definition handle_exception (e : string) (committed : row) (stats : Stats)
      (w : World) (tbl : Table) : Flow * Stats * World * Table :=
    let item :=
      set_error_message (Some e)
        (set_retry_count (retry_count committed + 1)
           (set_status "failed" committed)) in
    let stats := incr_failed stats in
    match db_commit w with
    | (None, w') => (Continue, stats, w', update_row item tbl)
    | (Some _, w') => (Abort, stats, w', tbl)
    end.

  (** The first half of the loop body: mark the item as [syncing] and
      commit. *)
Definition mark_syncing (item : row) (w : World) (tbl : Table)
      : option string * World * Table :=
    match db_commit w with
    | (None, w') => (None, w', update_row (set_status "syncing" item) tbl)
    | (Some e, w') => (Some e, w', tbl)
    end.

  (** The second half: push, record the outcome on the instance, commit.
      [item] is the instance as committed by [mark_syncing]. *)
Definition settle (item : row) (stats : Stats) (w : World) (tbl : Table)
      : Flow * Stats * World * Table :=
    let '(success, w1) := _push_item item w in
    if success then
      let '(now, w2) := utcnow w1 in
      let item' := set_synced_at (Some now) (set_status "synced" item) in
      let stats' := incr_pushed stats in
      match db_commit w2 with
      | (None, w3) => (Continue, stats', w3, update_row item' tbl)
      | (Some e, w3) => handle_exception e item stats' w3 tbl
      end
    else
      let item' :=
        set_retry_count (retry_count item + 1) (set_status "failed" item) in
      let stats' := incr_failed stats in
      match db_commit w1 with
      | (None, w2) => (Continue, stats', w2, update_row item' tbl)
      | (Some e, w2) => handle_exception e item stats' w2 tbl
      end.

  (** One iteration of [for item in pending_items]. *)
Definition process_item (item : row) (stats : Stats) (w : World)
      (tbl : Table) : Flow * Stats * World * Table :=
    match mark_syncing item w tbl with
    | (None, w1, tbl1) => settle (set_status "syncing" item) stats w1 tbl1
    | (Some e, w1, tbl1) => handle_exception e item stats w1 tbl1
    end.

  (** The [for] loop; an exception that leaves the body ends the batch in
      the outer [except], which returns the statistics gathered so far. *)
Fixpoint push_loop (items : list row) (stats : Stats) (w : World)
      (tbl : Table) : Flow * Stats * World * Table :=
    match items with
    | [] => (Continue, stats, w, tbl)
    | item :: rest =>
        match process_item item stats w tbl with
        | (Continue, stats', w', tbl') => push_loop rest stats' w' tbl'
        | (Abort, stats', w', tbl') => (Abort, stats', w', tbl')
        end
    end.

  (** [filter(status == "pending").limit(limit).all()]: no [ORDER BY] is
      issued, the rows come in scan order.  [limit] is a row count. *)
Definition pending_items (limit : nat) (tbl : Table) : list row :=
    take limit (with_status "pending" tbl).

  (** [SyncService.push_pending_changes]. *)
Definition push_pending_changes (svc : SyncService) (limit : nat)
      (w : World) (tbl : Table) : Stats * World * Table :=
    if negb (is_enabled svc) then (no_stats, w, tbl)
    else
      let '(_, stats, w', tbl') :=
        push_loop (pending_items limit tbl) no_stats w tbl in
      (stats, w', tbl').

  (** The rows [clear_synced_items] deletes: [status == "synced"] and
      [synced_at < cutoff]; a row without [synced_at] never matches. *)
Definition is_stale (cutoff : Z) (r : row) : bool :=
    bool_decide (status r = "synced") &&
    match synced_at r with
    | Some t => bool_decide (t < cutoff)
    | None => false
    end.

  (** [SyncService.clear_synced_items]; days are 86400 seconds. *)
Definition clear_synced_items (older_than_days : Z) (w : World)
      (tbl : Table) : Z * World * Table :=
    let '(now, w1) := utcnow w in
    let cutoff_date := now - older_than_days * 86400 in
    match db_commit w1 with
    | (None, w2) =>
        (Z.of_nat (length (filter (λ r, is_stale cutoff_date r = true) tbl)),
         w2, filter (λ r, is_stale cutoff_date r ≠ true) tbl)
    | (Some _, w2) => (0, w2, tbl)
    end.
End Service.

(** The row a batch commits for [item] once its push has returned [ok]
    and the clock, read after a successful push, has shown [now]: the two
    branches of [if success] in the loop body. *)
Definition settled_row (item : row) (ok : bool) (now : Z) : row :=
  if ok then set_synced_at (Some now) (set_status "synced" item)
  else set_retry_count (retry_count item + 1) (set_status "failed" item).

(** The local store is reliable: no [commit] raises. *)
Definition reliable {World : Type}
    (db_commit : World → option string * World) : Prop :=
  ∀ w, (db_commit w).1 = None.

(** The push of [item] as the iteration that starts in [w] issues it:
    after the commit that marks the row. *)
Definition push_of {World : Type}
    (execute : Request → World → Response * World)
    (db_commit : World → option string * World)
    (item : row) (w : World) : bool * World :=
  _push_item execute (set_status "syncing" item) (db_commit w).2.

(** ** Status reporting *)

(** The values found in the status dictionaries. *)
Inductive Value : Type :=
| VInt (n : Z)
| VBool (b : bool).

#[global] Instance Value_eq_dec : EqDecision Value.
Proof. solve_decision. Defined.

(** [query.filter(status == s).count()]. *)
Definition count_status (s : string) (tbl : Table) : Z :=
  Z.of_nat (length (with_status s tbl)).

(** [SyncService.get_queue_status]. *)
Definition get_queue_status (tbl : Table) : gmap string Value :=
  let pending := count_status "pending" tbl in
  let syncing := count_status "syncing" tbl in
  let failed := count_status "failed" tbl in
  let synced := count_status "synced" tbl in
  <["pending" := VInt pending]>
    (<["syncing" := VInt syncing]>
       (<["failed" := VInt failed]>
          (<["synced" := VInt synced]>
             {["total" := VInt (pending + syncing + failed + synced)]}))).

(** The statistics as the dictionary they are in the source. *)
Definition stats_dict (s : Stats) : gmap string Value :=
  <["pushed" := VInt (pushed s)]>
    (<["failed" := VInt (failed s)]> {["skipped" := VInt (skipped s)]}).

(** ** The manager *)

Record SyncManager : Type := MkManager {
  sync_service : SyncService;
  timer : bool;
  is_syncing : bool
}.

(** [SyncManager.__init__]: [_setup_auto_sync] arms the periodic timer,
    which is connected to [sync], when [config.SYNC_AUTO] is set and the
    service is enabled. *)
Definition new_manager (SYNC_AUTO : bool) (svc : SyncService) : SyncManager :=
  MkManager svc (SYNC_AUTO && is_enabled svc) false.

Definition set_is_syncing (b : bool) (m : SyncManager) : SyncManager :=
  MkManager (sync_service m) (timer m) b.

(** The guards of [SyncManager.sync] and the assignment that follows
    them: [None] when the call returns without doing anything. *)
Definition sync_enter (force : bool) (m : SyncManager) : option SyncManager :=
  if negb (is_enabled (sync_service m)) then None
  else if is_syncing m && negb force then None
  else Some (set_is_syncing true m).

(** The [finally] clause of [SyncManager.sync]. *)
Definition sync_exit (m : SyncManager) : SyncManager := set_is_syncing false m.

(** [SyncManager.get_status]. *)
Definition get_status (m : SyncManager) (tbl : Table) : gmap string Value :=
  if negb (is_enabled (sync_service m)) then {["enabled" := VBool false]}
  else
    <["is_syncing" := VBool (is_syncing m)]>
      (<["enabled" := VBool true]> (get_queue_status tbl)).

Section Manager.
Context {World : Type}.
Variable execute : Request → World → Response * World.
Variable db_commit : World → option string * World.
Variable utcnow : World → Z * World.

  (** The [try] block of [SyncManager.sync]: one batch with the default
      limit, then the dictionary that [sync_status_changed] emits
      ([status.update(stats)]: the keys of [stats] win). *)
Definition sync_body (m : SyncManager) (w : World) (tbl : Table)
      : gmap string Value * World * Table :=
    let '(stats, w', tbl') :=
      push_pending_changes execute db_commit utcnow
        (sync_service m) 100 w tbl in
    (stats_dict stats ∪ get_queue_status tbl', w', tbl').

  (** [SyncManager.sync], run from its first to its last line. *)
Definition sync (force : bool) (m : SyncManager) (w : World) (tbl : Table)
      : SyncManager * option (gmap string Value) * World * Table :=
    match sync_enter force m with
    | None => (m, None, w, tbl)
    | Some m1 =>
        let '(status, w', tbl') := sync_body m1 w tbl in
        (sync_exit m1, Some status, w', tbl')
    end.

  (** [SyncManager.sync_now]. *)
Definition sync_now (m : SyncManager) (w : World) (tbl : Table) :=
    sync true m w tbl.
End Manager.

(** *** The callers of [sync]

    [sync] is connected to the timeout of the periodic timer
    ([timer.timeout.connect(self.sync)]); [sync_now] is called by the
    start-up single shot ([QTimer.singleShot(5000, self.sync_now)]) and by
    the menu action of the main window.  All of them are slots that the
    event loop of the main thread runs one at a time, each to its end: a
    trigger that arrives while a slot runs is handled after that slot has
    returned. *)
Inductive Trigger : Type :=
| Tick        (* the periodic timer: [sync()] *)
| Manual.     (* the menu action and the start-up shot: [sync_now()] *)

Section Dispatch.
Context {World : Type}.
Variable execute : Request → World → Response * World.
Variable db_commit : World → option string * World.
Variable utcnow : World → Z * World.

(** The slot that a trigger runs. *)
Definition handle (t : Trigger) (m : SyncManager) (w : World) (tbl : Table)
    : SyncManager * option (gmap string Value) * World * Table :=
  match t with
  | Tick => sync execute db_commit utcnow false m w tbl
  | Manual => sync_now execute db_commit utcnow m w tbl
  end.

(** The triggers handled in the order of their arrival; the second
    component lists the dictionaries emitted on the way. *)
Fixpoint dispatch (ts : list Trigger) (m : SyncManager) (w : World)
    (tbl : Table) : SyncManager * list (gmap string Value) * World * Table :=
  match ts with
  | [] => (m, [], w, tbl)
  | t :: rest =>
      let '(m1, emitted, w1, tbl1) := handle t m w tbl in
      let '(m2, log, w2, tbl2) := dispatch rest m1 w1 tbl1 in
      (m2, option_list emitted ++ log, w2, tbl2)
  end.
End Dispatch.

(** ** Capture *)

(** What the mixin reads from a model instance: [__table__.name],
    [str(getattr(self, 'id', ''))] and [to_dict()]. *)
Record Entity : Type := MkEntity {
  entity_table : string;
  entity_id : string;
  to_dict : Payload
}.

#[global] Instance Entity_eq_dec : EqDecision Entity.
Proof. solve_decision. Defined.

Inductive Mutation : Type :=
| DoInsert (e : Entity)
| DoUpdate (e : Entity)
| DoDelete (e : Entity).

(** The committed content of the local database file: the domain rows and
    the queue. *)
Record Store : Type := MkStore {
  entities : list Entity;
  sync_queue : Table
}.

Definition same_key (a b : Entity) : Prop :=
  entity_table a = entity_table b ∧ entity_id a = entity_id b.

#[global] Instance same_key_dec a b : Decision (same_key a b).
Proof. unfold same_key. apply _. Defined.

Definition apply_mutation (m : Mutation) (es : list Entity) : list Entity :=
  match m with
  | DoInsert e => es ++ [e]
  | DoUpdate e => (λ x, if decide (same_key x e) then e else x) <$> es
  | DoDelete e => filter (λ x, ¬ same_key x e) es
  end.

Section Capture.
Context {World : Type}.
Variable db_commit : World → option string * World.
Variable utcnow : World → Z * World.

  (** [SyncableMixin.add_to_sync_queue]. *)
Definition add_to_sync_queue (svc : SyncService) (self : Entity)
      (operation : string) (w : World) (tbl : Table)
      : Outcome unit * World * Table :=
    if is_enabled svc then
      let data :=
        if decide (operation ≠ "delete") then Some (to_dict self) else None in
      match add_to_queue db_commit utcnow svc (entity_table self)
              (entity_id self) operation data w tbl with
      | (Returns _, w', tbl') => (Returns (), w', tbl')
      | (Raise e, w', tbl') => (Raise e, w', tbl')
      end
    else (Returns (), w, tbl).

  (** [after_insert], [after_update], [after_delete]. *)
Definition mapper_hook (svc : SyncService) (m : Mutation) :=
    match m with
    | DoInsert e => add_to_sync_queue svc e "create"
    | DoUpdate e => add_to_sync_queue svc e "update"
    | DoDelete e => add_to_sync_queue svc e "delete"
    end.

  (** Modelled from the spec: the transaction of a domain service around
      one mutation; the model classes and the registration of the mapper
      hooks are not among the sources.  The row change is written inside
      the open transaction, capture is invoked synchronously as part of
      it, and the transaction then commits or, when its commit raises or
      capture raised, rolls back. *)
Definition domain_transaction (svc : SyncService) (m : Mutation)
      (w : World) (st : Store) : Outcome unit * World * Store :=
    match mapper_hook svc m w (sync_queue st) with
    | (Raise e, w1, q1) => (Raise e, w1, MkStore (entities st) q1)
    | (Returns _, w1, q1) =>
        match db_commit w1 with
        | (None, w2) =>
            (Returns (), w2, MkStore (apply_mutation m (entities st)) q1)
        | (Some e, w2) => (Raise e, w2, MkStore (entities st) q1)
        end
    end.
End Capture.

(** [rewrites_by P tbl tbl']: [tbl'] is [tbl] after a sequence of
    [UPDATE]s, each writing a row that satisfies [P] (latest first in the
    witness). *)
Definition rewrites_by (P : row → Prop) (tbl tbl' : Table) : Prop :=
  ∃ xs, Forall P xs ∧ tbl' = foldr update_row tbl xs.

(** The updates touch keys in [keys] only. *)
Definition rewrites_of (keys : list Z) (tbl tbl' : Table) : Prop :=
  rewrites_by (λ x, id x ∈ keys) tbl tbl'.

(** The rows that the loop body can write for [item]: the [syncing] mark,
    the two outcomes of the push, and what the handler writes. *)
Definition written_for (item x : row) : Prop :=
  x = set_status "syncing" item ∨
  (∃ now, x = set_synced_at (Some now) (set_status "synced" item)) ∨
  x = set_retry_count (retry_count item + 1) (set_status "failed" item) ∨
  (∃ e, x = set_error_message (Some e)
              (set_retry_count (retry_count item + 1)
                 (set_status "failed" item))).

(** The edges of the life cycle of a row. *)
Inductive status_edge : string → string → Prop :=
| edge_claim : status_edge "pending" "syncing"
| edge_synced : status_edge "syncing" "synced"
| edge_failed : status_edge "syncing" "failed".

(** The moves of the committed status of a row from one commit to the
    next: the edges, and the short cut that the exception handler takes
    when the commit of the [syncing] mark has raised. *)
Inductive status_move : string → string → Prop :=
| move_edge a b : status_edge a b → status_move a b
| move_handler : status_move "pending" "failed".

(** The rows of [path], committed one after the other, take the status
    from [s] along [R]. *)
Fixpoint follows (R : string → string → Prop) (s : string)
    (path : list row) : Prop :=
  match path with
  | [] => True
  | x :: rest => R s (status x) ∧ follows R (status x) rest
  end.

(** The table after the rows of [path] have been committed in turn. *)
Definition commit_all (path : list row) (tbl : Table) : Table :=
  foldl (λ t x, update_row x t) tbl path.

(** An error message is only ever found on a failed row. *)
Definition error_only_on_failed (tbl : Table) : Prop :=
  ∀ r, r ∈ tbl → error_message r ≠ None → status r = "failed".

(** ** The operations of the engine on the queue *)
Inductive Op : Type :=
| Capture (svc : SyncService) (table_name record_id operation : string)
          (data : option Payload)
| PushBatch (svc : SyncService) (limit : nat)
| ClearSynced (older_than_days : Z)
| QueueStatus.

Section Engine.
Context {World : Type}.
Variable execute : Request → World → Response * World.
Variable db_commit : World → option string * World.
Variable utcnow : World → Z * World.

Definition run_op (o : Op) (w : World) (tbl : Table) : World * Table :=
  match o with
  | Capture svc t r op d =>
      let '(_, w', tbl') := add_to_queue db_commit utcnow svc t r op d w tbl in
      (w', tbl')
  | PushBatch svc limit =>
      let '(_, w', tbl') :=
        push_pending_changes execute db_commit utcnow svc limit w tbl in
      (w', tbl')
  | ClearSynced days =>
      let '(_, w', tbl') := clear_synced_items db_commit utcnow days w tbl in
      (w', tbl')
  | QueueStatus => (w, tbl)
  end.

Fixpoint run_ops (os : list Op) (w : World) (tbl : Table) : World * Table :=
  match os with
  | [] => (w, tbl)
  | o :: os' => let '(w', tbl') := run_op o w tbl in run_ops os' w' tbl'
  end.
End Engine.

(** Whether an operation is the sweep of old synced rows. *)
Definition is_sweep (o : Op) : bool :=
  match o with ClearSynced _ => true | _ => false end.

(** ** Construction of the service and the manager *)

(** The values of [config.py] that the engine reads. *)
Record Config : Type := MkConfig {
  SYNC_ENABLED : bool;
  SUPABASE_URL : string;
  SUPABASE_KEY : string;
  SYNC_INTERVAL : Z;
  SYNC_ON_STARTUP : bool;
  SYNC_AUTO : bool
}.

(** The truth value of a Python string: it is true unless empty. *)
Definition str_truthy (s : string) : bool := bool_decide (s ≠ "").

(** [SyncService.__init__].  [SUPABASE_AVAILABLE] tells whether the
    [supabase] package could be imported, [create_client] is the
    constructor of that package, which may raise. *)
Definition SyncService_init (cfg : Config) (SUPABASE_AVAILABLE : bool)
    (create_client : string → string → Outcome Client) : SyncService :=
  let enabled := SYNC_ENABLED cfg && SUPABASE_AVAILABLE in
  if enabled && str_truthy (SUPABASE_URL cfg) && str_truthy (SUPABASE_KEY cfg)
  then
    match create_client (SUPABASE_URL cfg) (SUPABASE_KEY cfg) with
    | Returns c => MkService enabled (Some c)
    | Raise _ => MkService false None
    end
  else MkService enabled None.

(** [SyncManager.__init__] from the configuration. *)
Definition SyncManager_init (cfg : Config) (SUPABASE_AVAILABLE : bool)
    (create_client : string → string → Outcome Client) : SyncManager :=
  new_manager (SYNC_AUTO cfg)
    (SyncService_init cfg SUPABASE_AVAILABLE create_client).

(** ** The main window as a consumer of the status *)

(** The truth value of a value of a status dictionary. *)
Definition truthy (v : Value) : bool :=
  match v with
  | VBool b => b
  | VInt n => bool_decide (n ≠ 0)
  end.

(** [v > 0] in Python, where [True] counts as 1. *)
Definition positive_value (v : Value) : bool :=
  match v with
  | VBool b => b
  | VInt n => bool_decide (0 < n)
  end.

(** The messages of the status bar. *)
Inductive StatusBarMessage : Type :=
| SyncPendingChanges (pending : Value)   (* "Sync: {pending} pending changes" *)
| AllChangesSynced.                      (* "All changes synced" *)

(** [MainWindow.on_sync_status_changed], the slot connected to
    [sync_status_changed]: the message it shows, if any. *)
Definition on_sync_status_changed (status : gmap string Value)
    : option StatusBarMessage :=
  match status !! "enabled" with
  | Some v =>
      if truthy v then
        let pending := default (VInt 0) (status !! "pending") in
        if positive_value pending then Some (SyncPendingChanges pending)
        else Some AllChangesSynced
      else None
  | None => None
  end.

(** The text of the dialog of [MainWindow.show_sync_status]. *)
Inductive StatusDialog : Type :=
| SyncStatusText (pending syncing failed synced : Value)
| SyncDisabledNotice.

(** [MainWindow.show_sync_status] on the dictionary that [get_status]
    returned. *)
Definition show_sync_status (status : gmap string Value) : StatusDialog :=
  if default false (truthy <$> status !! "enabled") then
    SyncStatusText (default (VInt 0) (status !! "pending"))
                   (default (VInt 0) (status !! "syncing"))
                   (default (VInt 0) (status !! "failed"))
                   (default (VInt 0) (status !! "synced"))
  else SyncDisabledNotice.

(** ** Vocabulary for the properties of the queue *)

(** The columns that the engine never assigns after the insert. *)
Definition same_record (a b : row) : Prop :=
  id a = id b ∧ table_name a = table_name b ∧ record_id a = record_id b ∧
  operation a = operation b ∧ data a = data b ∧ created_at a = created_at b.

(** How a batch may change the row at one position of the table. *)
Definition evolves (a b : row) : Prop :=
  same_record a b ∧
  (b = a ∨
   (status a = "pending" ∧
    (status b = "syncing" ∨ status b = "synced" ∨ status b = "failed"))).

(** The shape of the rows of a queue that only the engine has written. *)
Definition engine_row (r : row) : Prop :=
  (status r = "pending" ∧ retry_count r = 0 ∧ error_message r = None ∧
   synced_at r = None) ∨
  (status r = "syncing" ∧ retry_count r = 0 ∧ error_message r = None ∧
   synced_at r = None) ∨
  (status r = "synced" ∧ retry_count r = 0 ∧ error_message r = None ∧
   synced_at r ≠ None) ∨
  (status r = "failed" ∧ retry_count r = 1 ∧ synced_at r = None).

(** The sum that [get_queue_status] reports as [total]. *)
Definition total_count (tbl : Table) : Z :=
  count_status "pending" tbl + count_status "syncing" tbl +
  count_status "failed" tbl + count_status "synced" tbl.

(** The rows that a sweep with the given cutoff deletes. *)
Definition swept (cutoff : Z) (r : row) : Prop :=
  status r = "synced" ∧ ∃ t, synced_at r = Some t ∧ t < cutoff.

(** The rows that a sweep with the given cutoff keeps, and the number of
    those it deletes. *)
Definition kept_rows (cutoff : Z) (tbl : Table) : Table :=
  filter (λ r, is_stale cutoff r ≠ true) tbl.
Definition gone_count (cutoff : Z) (tbl : Table) : Z :=
  Z.of_nat (length (filter (λ r, is_stale cutoff r = true) tbl)).

(** An operation that goes through a service that is not enabled, or
    that only reads. *)
Definition without_service (o : Op) : Prop :=
  match o with
  | Capture svc _ _ _ _ => is_enabled svc = false
  | PushBatch svc _ => is_enabled svc = false
  | ClearSynced _ => False
  | QueueStatus => True
  end.

(** The payload that the mixin hands over for a mutation. *)
Definition snapshot_of (m : Mutation) : option Payload :=
  match m with
  | DoDelete _ => None
  | DoInsert e | DoUpdate e => Some (to_dict e)
  end.

(** The operations that [_push_item] knows. *)
Definition known_operation (r : row) : Prop :=
  operation r = "create" ∨ operation r = "update" ∨ operation r = "delete".

(** A remote service that answers every request with at least one row. *)
Definition always_accepts {World : Type}
    (execute : Request → World → Response * World) : Prop :=
  ∀ q w, ∃ n, (execute q w).1 = Data (S n).

(** A remote service that cannot be reached: every request raises. *)
Definition always_raises {World : Type}
    (execute : Request → World → Response * World) : Prop :=
  ∀ q w, ∃ msg, (execute q w).1 = Raises msg.

(** The operation that the mapper hook of a mutation records. *)
Definition op_of (m : Mutation) : string :=
  match m with
  | DoInsert _ => "create"
  | DoUpdate _ => "update"
  | DoDelete _ => "delete"
  end.

Definition entity_of (m : Mutation) : Entity :=
  match m with DoInsert e | DoUpdate e | DoDelete e => e end.

(** ** Test doubles

    A world that only counts the calls made to it, a remote service that
    accepts everything or times out, a store whose commits go through or
    raise at chosen moments, and a few rows. *)
Definition stub_succeeds : Request → nat → Response * nat :=
  λ _ n, (Data 1, S n).
Definition stub_times_out : Request → nat → Response * nat :=
  λ _ n, (Raises "timeout", S n).
Definition stub_rejects : Request → nat → Response * nat :=
  λ _ n, (Data 0, S n).
Definition commit_ok : nat → option string * nat := λ n, (None, S n).
Definition commit_fails_at (k : nat) : nat → option string * nat :=
  λ n, (if decide (n = k) then Some "database is locked" else None, S n).
Definition tick_clock : nat → Z * nat := λ n, (Z.of_nat n, S n).

Definition svc_on : SyncService :=
  MkService true (Some (MkClient "https://db.example" "anon")).
Definition svc_off : SyncService := MkService false None.

Definition pending_row (i : Z) (operation record_id : string) : row :=
  Row i "contacts" record_id operation
      (if decide (operation ≠ "delete") then Some [("name", "Alice")] else None)
      "pending" 0 None 0 None.

(** A queue filled by three captures, scanned by ascending key. *)
Definition three_pending : Table :=
  [pending_row 1 "create" "7"; pending_row 2 "update" "7";
   pending_row 3 "delete" "9"].


(** A queue on which everything has been pushed already. *)
Definition all_synced : Table :=
  [set_synced_at (Some 5) (set_status "synced" (pending_row 1 "create" "7"));
   set_synced_at (Some 6) (set_status "synced" (pending_row 2 "delete" "7"))].

(** A queue with one row that has failed already. *)
Definition one_failed : Table :=
  [set_retry_count 1 (set_status "failed" (pending_row 1 "update" "7"));
   pending_row 2 "create" "8"].

(** A pending row that still carries the reason of an earlier failure, as
    a reset of a failed row to [pending] leaves it. *)
Definition requeued_row : row :=
  set_error_message (Some "timeout") (pending_row 1 "update" "7").

(** A manager with the periodic timer armed and no sync in progress. *)
Definition idle : SyncManager := new_manager true svc_on.

(** A queue with one pending row more than the limit of a sync. *)
Definition many_pending : Table :=
  (λ i, pending_row (Z.of_nat i) "create" "7") <$> seq 1 101.

(** A queue whose second row carries an operation that [_push_item] does
    not know. *)
Definition with_upsert : Table :=
  [pending_row 1 "create" "7"; pending_row 2 "upsert" "7"].

(** A queue with an old synced row, a recent one and a pending one. *)
Definition to_sweep : Table :=
  [set_synced_at (Some 100) (set_status "synced" (pending_row 1 "create" "7"));
   set_synced_at (Some 900000) (set_status "synced" (pending_row 2 "update" "7"));
   pending_row 3 "delete" "7"].

(** A clock that shows ten days and some seconds. *)
Definition late_clock : nat → Z * nat := λ n, (864100, S n).

(** A complete configuration and a constructor that succeeds. *)
Definition full_config : Config :=
  MkConfig true "https://db.example" "anon" 300 true true.
Definition client_of : string → string → Outcome Client :=
  λ u k, Returns (MkClient u k).

(** * Properties *)

(** ** Rows and tables *)

Lemma id_set_status s r : id (set_status s r) = id r.
Proof. reflexivity. Qed.

Lemma set_status_twice s1 s2 r : set_status s2 (set_status s1 r) = set_status s2 r.
Proof. reflexivity. Qed.

Lemma ids_update_row it tbl : ids (update_row it tbl) = ids tbl.
Proof.
  unfold ids, update_row. rewrite <- list_fmap_compose.
  apply list_fmap_ext. intros i r _. simpl. by case_decide.
Qed.

Lemma length_update_row it tbl : length (update_row it tbl) = length tbl.
Proof. unfold update_row. by rewrite length_fmap. Qed.

(** A row with another key is neither added nor removed by an update. *)
Lemma elem_of_update_row_ne it tbl r :
  id r ≠ id it → r ∈ update_row it tbl ↔ r ∈ tbl.
Proof.
  intros Hne. unfold update_row. rewrite list_elem_of_fmap. split.
  - intros (r0 & -> & Hin). case_decide; [done|]. done.
  - intros Hin. exists r. split; [|done]. by rewrite decide_False.
Qed.

(** The rows that carry the key of [it] all become [it]. *)
Lemma elem_of_update_row_eq it tbl r :
  id r = id it → r ∈ update_row it tbl → r = it.
Proof.
  intros Heq. unfold update_row. rewrite list_elem_of_fmap.
  intros (r0 & -> & Hin). case_decide; [done|]. congruence.
Qed.

Lemma elem_of_update_row_hit it tbl r0 :
  r0 ∈ tbl → id r0 = id it → it ∈ update_row it tbl.
Proof.
  intros Hin Heq. unfold update_row. rewrite list_elem_of_fmap.
  exists r0. split; [|done]. by rewrite decide_True.
Qed.

(** Two updates of the same key: the later one wins. *)
Lemma update_row_twice a b tbl :
  id a = id b → update_row b (update_row a tbl) = update_row b tbl.
Proof.
  intros Hab. unfold update_row. rewrite <- list_fmap_compose.
  apply list_fmap_ext. intros i r _. simpl.
  destruct (decide (id r = id a)) as [Ha|Ha].
  - rewrite decide_True by done. rewrite decide_True by congruence. done.
  - done.
Qed.

(** Updating a key that no row carries changes nothing. *)
Lemma update_row_absent it tbl : id it ∉ ids tbl → update_row it tbl = tbl.
Proof.
  intros Hni. unfold update_row. rewrite <- (list_fmap_id tbl) at 2.
  apply list_fmap_ext. intros i r Hr. simpl.
  case_decide as Heq; [|done]. exfalso. apply Hni.
  unfold ids. rewrite list_elem_of_fmap. exists r. split; [done|].
  by eapply list_elem_of_lookup_2.
Qed.

(** In a table with a primary key, a row is determined by its key. *)
Lemma NoDup_ids_inj (tbl : Table) a b :
  NoDup (ids tbl) → a ∈ tbl → b ∈ tbl → id a = id b → a = b.
Proof.
  unfold ids. induction tbl as [|r tbl IH]; intros Hnd Ha Hb Heq.
  - by apply elem_of_nil in Ha.
  - rewrite fmap_cons in Hnd. apply NoDup_cons in Hnd as [Hr Hnd].
    apply elem_of_cons in Ha as [->|Ha]; apply elem_of_cons in Hb as [->|Hb].
    + done.
    + exfalso. apply Hr. rewrite Heq. apply list_elem_of_fmap. eauto.
    + exfalso. apply Hr. rewrite <- Heq. apply list_elem_of_fmap. eauto.
    + by apply IH.
Qed.

Lemma next_id_above (tbl : Table) r : r ∈ tbl → id r < next_id tbl.
Proof.
  unfold next_id, ids. induction tbl as [|x tbl IH]; intros Hin.
  - by apply elem_of_nil in Hin.
  - rewrite fmap_cons. cbn [foldr].
    apply elem_of_cons in Hin as [->|Hin]; [lia|].
    specialize (IH Hin). lia.
Qed.

Lemma next_id_fresh (tbl : Table) : next_id tbl ∉ ids tbl.
Proof.
  unfold ids. rewrite list_elem_of_fmap. intros (r & Heq & Hin).
  apply next_id_above in Hin. lia.
Qed.

Lemma rewrites_by_refl P tbl : rewrites_by P tbl tbl.
Proof. exists []. by split; [constructor|]. Qed.

Lemma rewrites_by_step (P : row → Prop) it tbl :
  P it → rewrites_by P tbl (update_row it tbl).
Proof. intros Hk. exists [it]. split; [by repeat constructor|done]. Qed.

Lemma rewrites_by_trans P t1 t2 t3 :
  rewrites_by P t1 t2 → rewrites_by P t2 t3 → rewrites_by P t1 t3.
Proof.
  intros (xs & Hxs & ->) (ys & Hys & ->). exists (ys ++ xs). split.
  - by apply Forall_app.
  - by rewrite foldr_app.
Qed.

Lemma rewrites_by_mono (P Q : row → Prop) t1 t2 :
  (∀ x, P x → Q x) → rewrites_by P t1 t2 → rewrites_by Q t1 t2.
Proof.
  intros Hsub (xs & Hxs & ->). exists xs. split; [|done].
  eapply Forall_impl; [exact Hxs|]. exact Hsub.
Qed.

(** A row of the result is a row of the original table or a written one. *)
Lemma rewrites_by_elem P t1 t2 r :
  rewrites_by P t1 t2 → r ∈ t2 → r ∈ t1 ∨ P r.
Proof.
  intros (xs & Hxs & ->). induction Hxs as [|x xs Hx Hxs IH]; [by left|].
  simpl. intros Hr. destruct (decide (id r = id x)) as [Heq|Hne].
  - right. by rewrite (elem_of_update_row_eq x _ r Heq Hr).
  - apply IH. by apply (elem_of_update_row_ne x).
Qed.

Lemma rewrites_of_ids keys t1 t2 : rewrites_of keys t1 t2 → ids t2 = ids t1.
Proof.
  intros (xs & _ & ->). induction xs as [|x xs IH]; [done|].
  simpl. by rewrite ids_update_row.
Qed.

(** Rows whose key is not among [keys] are exactly preserved. *)
Lemma rewrites_of_frame keys t1 t2 r :
  rewrites_of keys t1 t2 → id r ∉ keys → r ∈ t2 ↔ r ∈ t1.
Proof.
  intros (xs & Hxs & ->) Hr. induction Hxs as [|x xs Hx Hxs IH]; [done|].
  simpl. rewrite elem_of_update_row_ne; [done|]. intros Heq. apply Hr.
  by rewrite Heq.
Qed.

Lemma written_for_id item x : written_for item x → id x = id item.
Proof. by intros [->|[[now ->]|[->|[e ->]]]]. Qed.

Lemma written_for_status item x :
  written_for item x →
  status x = "syncing" ∨ status x = "synced" ∨ status x = "failed".
Proof. intros [->|[[now ->]|[->|[e ->]]]]; simpl; tauto. Qed.

Lemma written_for_error item x :
  written_for item x → error_message item = None →
  error_message x ≠ None → status x = "failed".
Proof. by intros [->|[[now ->]|[->|[e ->]]]]. Qed.

(** ** The batch loop against any outside world *)
Section Loop.
Context {World : Type}.
Variable execute : Request → World → Response * World.
Variable db_commit : World → option string * World.
Variable utcnow : World → Z * World.

#[local] Abbreviation process := (process_item execute db_commit utcnow).
#[local] Abbreviation loop := (push_loop execute db_commit utcnow).
#[local] Abbreviation batch :=
    (push_pending_changes execute db_commit utcnow).
#[local] Abbreviation settle_item := (settle execute db_commit utcnow).
#[local] Abbreviation push := (_push_item execute).

Ltac oracles :=
    repeat match goal with
      | |- context [db_commit ?w] =>
          let e := fresh "e" in
          let Hc := fresh "Hc" in
          destruct (db_commit w) as [[e|] ?] eqn:Hc
      | |- context [_push_item execute ?it ?w] =>
          let Hp := fresh "Hp" in
          destruct (_push_item execute it w) as [[|] ?] eqn:Hp
      | |- context [utcnow ?w] =>
          let Hn := fresh "Hn" in
          destruct (utcnow w) as [? ?] eqn:Hn
      end.

(** Every write of one iteration is one of the rows [written_for] the
    item. *)
Lemma process_item_writes item st w tbl fl st' w' tbl' :
  process item st w tbl = (fl, st', w', tbl') →
  rewrites_by (written_for item) tbl tbl'.
Proof.
  unfold process_item, settle, mark_syncing, handle_exception, written_for.
  oracles; intros [= <- <- <- <-];
    first
      [ apply rewrites_by_refl
      | apply rewrites_by_step; simpl; eauto 6
      | eapply rewrites_by_trans;
        [|apply rewrites_by_step; simpl; eauto 6];
        apply rewrites_by_step; simpl; eauto 6 ].
Qed.

Lemma push_loop_writes items st w tbl fl st' w' tbl' :
  loop items st w tbl = (fl, st', w', tbl') →
  rewrites_by (λ x, ∃ item, item ∈ items ∧ written_for item x) tbl tbl'.
Proof.
  revert st w tbl. induction items as [|item rest IH]; intros st w tbl.
  - intros [= <- <- <- <-]. apply rewrites_by_refl.
  - simpl. destruct (process item st w tbl) as [[[f1 st1] w1] tbl1] eqn:Hp.
    apply process_item_writes in Hp.
    assert (rewrites_by
              (λ x, ∃ i, i ∈ item :: rest ∧ written_for i x) tbl tbl1) as H1.
    { eapply rewrites_by_mono; [|exact Hp]. intros x Hx. exists item.
      split; [apply list_elem_of_here|exact Hx]. }
    destruct f1.
    + intros Hl. apply IH in Hl. eapply rewrites_by_trans; [exact H1|].
      eapply rewrites_by_mono; [|exact Hl]. intros x (i & Hi & Hx).
      exists i. split; [by apply list_elem_of_further|exact Hx].
    + by intros [= <- <- <- <-].
Qed.

(** In particular the loop only updates rows of the selected items. *)
Lemma push_loop_rewrites items st w tbl fl st' w' tbl' :
  loop items st w tbl = (fl, st', w', tbl') →
  rewrites_of (ids items) tbl tbl'.
Proof.
  intros Hl. apply push_loop_writes in Hl.
  eapply rewrites_by_mono; [|exact Hl]. intros x (i & Hi & Hx). simpl.
  rewrite (written_for_id i x Hx). unfold ids. by apply list_elem_of_fmap_2.
Qed.

(** The commits of one iteration, in order, and the statuses they give to
    the row of the item, whatever the outside world does. *)
Lemma process_item_path item st w tbl fl st' w' tbl' :
  status item = "pending" →
  process item st w tbl = (fl, st', w', tbl') →
  ∃ path,
    Forall (λ x, id x = id item) path ∧
    tbl' = commit_all path tbl ∧
    follows status_move "pending" path.
Proof.
  intros Hpend.
  unfold process_item, settle, mark_syncing, handle_exception.
  oracles; intros [= <- <- <- <-];
    first
      [ refine (ex_intro _ [] (conj _ (conj eq_refl _)))
      | refine (ex_intro _ [_] (conj _ (conj eq_refl _)))
      | refine (ex_intro _ [_; _] (conj _ (conj eq_refl _))) ];
    (split || idtac); simpl; repeat first [apply move_handler|constructor].
Qed.

(** The loop is left early only when the commit inside the exception
    handler raises, which takes two commits that raise in a row; what the
    remote service answered plays no part in it. *)
Lemma process_item_abort item st w tbl st' w' tbl' :
  process item st w tbl = (Abort, st', w', tbl') →
  ∃ w1 e1 w2 e2 w3,
    db_commit w1 = (Some e1, w2) ∧ db_commit w2 = (Some e2, w3).
Proof.
  unfold process_item, settle, mark_syncing, handle_exception.
  oracles; intros [= <- <- <-]; eauto 10.
Qed.

(** No iteration touches the [skipped] counter; each adds to [pushed] and
    [failed] only. *)
Lemma process_item_skipped item st w tbl fl st' w' tbl' :
  process item st w tbl = (fl, st', w', tbl') →
  skipped st' = skipped st.
Proof.
  unfold process_item, settle, mark_syncing, handle_exception.
  oracles; by intros [= <- <- <- <-].
Qed.

Lemma push_loop_app pre post st w tbl :
  loop (pre ++ post) st w tbl =
  match loop pre st w tbl with
  | (Continue, st1, w1, tbl1) => loop post st1 w1 tbl1
  | (Abort, st1, w1, tbl1) => (Abort, st1, w1, tbl1)
  end.
Proof.
  revert st w tbl. induction pre as [|item pre IH]; intros st w tbl; [done|].
  simpl. destruct (process item st w tbl) as [[[[|] st1] w1] tbl1]; [|done].
  apply IH.
Qed.

Lemma push_loop_skipped items st w tbl fl st' w' tbl' :
  loop items st w tbl = (fl, st', w', tbl') →
  skipped st' = skipped st.
Proof.
  revert st w tbl. induction items as [|item rest IH]; intros st w tbl.
  - by intros [= <- <- <- <-].
  - simpl. destruct (process item st w tbl) as [[[f1 st1] w1] tbl1] eqn:Hp.
    apply process_item_skipped in Hp. destruct f1.
    + intros Hl. apply IH in Hl. congruence.
    + intros [= <- <- <- <-]. done.
Qed.
End Loop.

(** ** The batch loop over a reliable local store *)
Section ReliableStore.
Context {World : Type}.
Variable execute : Request → World → Response * World.
Variable db_commit : World → option string * World.
Variable utcnow : World → Z * World.
Hypothesis commits : reliable db_commit.

#[local] Abbreviation process := (process_item execute db_commit utcnow).
#[local] Abbreviation loop := (push_loop execute db_commit utcnow).
#[local] Abbreviation pushed_ok := (push_of execute db_commit).

Lemma commit_goes_through w : db_commit w = (None, (db_commit w).2).
Proof. specialize (commits w). by destruct (db_commit w) as [[e|] w']. Qed.

(** One iteration: it never aborts, it counts the item once, and it
    leaves [settled_row] in the place of the item's row. *)
Lemma process_item_reliable item st w tbl :
  let ok := (pushed_ok item w).1 in
  let now := (utcnow (pushed_ok item w).2).1 in
  ∃ w',
    process item st w tbl =
      (Continue, (if ok then incr_pushed st else incr_failed st), w',
       update_row (settled_row item ok now) tbl).
Proof.
  unfold process_item, settle, mark_syncing, push_of.
  rewrite (commit_goes_through w).
  destruct (_push_item execute (set_status "syncing" item) (db_commit w).2)
    as [[|] w1] eqn:Hp; cbn [fst snd].
  - destruct (utcnow w1) as [now w2] eqn:Hn. cbn [fst].
    rewrite (commit_goes_through w2). eexists.
    rewrite update_row_twice by done. rewrite Hp. cbn [fst snd].
    by rewrite Hn.
  - rewrite (commit_goes_through w1). eexists.
    rewrite update_row_twice by done. by rewrite Hp.
Qed.

Lemma push_loop_reliable items st w tbl :
  ∃ st' w' tbl',
    loop items st w tbl = (Continue, st', w', tbl') ∧
    pushed st' + failed st' = pushed st + failed st + Z.of_nat (length items).
Proof.
  revert st w tbl. induction items as [|item rest IH]; intros st w tbl.
  - exists st, w, tbl. split; [done|]. simpl. lia.
  - destruct (process_item_reliable item st w tbl) as (w1 & Hp).
    simpl. rewrite Hp.
    edestruct IH as (st' & w' & tbl' & Hl & Hsum).
    exists st', w', tbl'. split; [exact Hl|]. rewrite Hsum.
    destruct (pushed_ok item w).1; simpl; lia.
Qed.

(** The row of one selected item after the whole batch: the rows before
    and after it in the batch leave it alone, its own iteration settles
    it. *)
Lemma push_loop_settles pre item post st w tbl :
  id item ∉ ids pre → id item ∉ ids post → item ∈ tbl →
  ∃ st1 w1 tbl1 st' w' tbl',
    loop pre st w tbl = (Continue, st1, w1, tbl1) ∧
    loop (pre ++ item :: post) st w tbl = (Continue, st', w', tbl') ∧
    let fin :=
      settled_row item (pushed_ok item w1).1
        (utcnow (pushed_ok item w1).2).1 in
    fin ∈ tbl' ∧ ∀ r, r ∈ tbl' → id r = id item → r = fin.
Proof.
  intros Hpre Hpost Hin.
  destruct (push_loop_reliable pre st w tbl) as (st1 & w1 & tbl1 & Hl1 & _).
  destruct (process_item_reliable item st1 w1 tbl1) as (w2 & Hp).
  destruct (push_loop_reliable post
              (if (pushed_ok item w1).1 then incr_pushed st1 else incr_failed st1)
              w2
              (update_row (settled_row item (pushed_ok item w1).1
                             (utcnow (pushed_ok item w1).2).1) tbl1))
    as (st' & w' & tbl' & Hl2 & _).
  exists st1, w1, tbl1, st', w', tbl'. split; [exact Hl1|]. split.
  { rewrite push_loop_app, Hl1. simpl. rewrite Hp. exact Hl2. }
  set (fin := settled_row _ _ _) in *.
  assert (id fin = id item) as Hid.
  { unfold fin, settled_row. by destruct (pushed_ok item w1).1. }
  apply push_loop_rewrites in Hl1, Hl2.
  assert (item ∈ tbl1) as Hin1 by by eapply rewrites_of_frame.
  split.
  - eapply rewrites_of_frame; [exact Hl2|by rewrite Hid|].
    eapply elem_of_update_row_hit; [exact Hin1|]. by rewrite Hid.
  - intros r Hr Hrid.
    apply (rewrites_of_frame _ _ _ r Hl2) in Hr; [|by rewrite Hrid].
    eapply elem_of_update_row_eq; [|exact Hr]. by rewrite Hid.
Qed.
End ReliableStore.

(** ** Selection of a batch *)

Lemma pending_items_elem limit tbl r :
  r ∈ pending_items limit tbl → r ∈ tbl ∧ status r = "pending".
Proof.
  unfold pending_items, with_status. intros Hr.
  apply (subseteq_take limit) in Hr as Hr'.
  apply list_elem_of_filter in Hr'. tauto.
Qed.

Lemma pending_items_sublist limit tbl : pending_items limit tbl `sublist_of` tbl.
Proof.
  unfold pending_items, with_status.
  etrans; [apply sublist_take|apply sublist_filter].
Qed.

Lemma pending_items_NoDup limit tbl :
  NoDup (ids tbl) → NoDup (ids (pending_items limit tbl)).
Proof.
  intros Hnd. eapply sublist_NoDup; [exact Hnd|].
  unfold ids. apply fmap_sublist, pending_items_sublist.
Qed.

Lemma pending_items_none limit tbl :
  (∀ r, r ∈ tbl → status r ≠ "pending") → pending_items limit tbl = [].
Proof.
  intros Hno. unfold pending_items, with_status.
  rewrite (elem_of_nil_inv (filter (λ r, status r = "pending") tbl)).
  - apply take_nil.
  - intros r Hr. apply list_elem_of_filter in Hr as [Hp Hr].
    by apply (Hno r).
Qed.

Lemma StronglySorted_sublist {A} (R : relation A) (l k : list A) :
  l `sublist_of` k → StronglySorted R k → StronglySorted R l.
Proof.
  induction 1 as [|x l k Hlk IH|x l k Hlk IH]; intros Hk.
  - constructor.
  - apply StronglySorted_cons in Hk as [Hx Hk].
    apply StronglySorted_cons. split; [|by apply IH].
    eapply Forall_forall. intros y Hy. eapply Forall_forall in Hx; [exact Hx|].
    by eapply elem_of_sublist.
  - apply StronglySorted_cons in Hk as [_ Hk]. by apply IH.
Qed.




(** ** What a batch returns and leaves behind *)
Section Pusher.
Context {World : Type}.
Variable execute : Request → World → Response * World.
Variable db_commit : World → option string * World.
Variable utcnow : World → Z * World.

#[local] Abbreviation loop := (push_loop execute db_commit utcnow).
#[local] Abbreviation batch := (push_pending_changes execute db_commit utcnow).
#[local] Abbreviation pushed_ok := (push_of execute db_commit).

(** C10: whatever the limit, the queue and the behaviour of the remote
    service and of the local store, the statistics that
    [push_pending_changes] returns have [skipped = 0]. *)
Theorem skipped_is_always_zero (svc : SyncService) (limit : nat)
    (w : World) (tbl : Table) :
  skipped (batch svc limit w tbl).1.1 = 0.
Proof.
  unfold push_pending_changes. destruct (negb (is_enabled svc)); [done|].
  destruct (loop (pending_items limit tbl) no_stats w tbl)
    as [[[fl st] w'] tbl'] eqn:Hl.
  apply push_loop_skipped in Hl. exact Hl.
Qed.

End Pusher.

(** ** A batch over a reliable local store *)
Section ReliableBatch.
Context {World : Type}.
Variable execute : Request → World → Response * World.
Variable db_commit : World → option string * World.
Variable utcnow : World → Z * World.

#[local] Abbreviation loop := (push_loop execute db_commit utcnow).
#[local] Abbreviation batch := (push_pending_changes execute db_commit utcnow).
#[local] Abbreviation pushed_ok := (push_of execute db_commit).

Lemma split_NoDup_ids (pre post : Table) (item : row) :
  NoDup (ids (pre ++ item :: post)) →
  (id item ∉ ids pre) ∧ (id item ∉ ids post).
Proof.
  unfold ids. rewrite fmap_app, fmap_cons. intros Hnd.
  apply NoDup_app in Hnd as (_ & Hdisj & Hpost).
  apply NoDup_cons in Hpost as [Hpost _]. split; [|exact Hpost].
  intros Hin. eapply Hdisj; [exact Hin|]. apply list_elem_of_here.
Qed.

(** The batch as a whole: it runs over every selected row, and the row of
    each selected item ends as its own push settles it. *)
Lemma batch_settles svc limit w tbl pre item post :
  reliable db_commit → is_enabled svc = true → NoDup (ids tbl) →
  pending_items limit tbl = pre ++ item :: post →
  ∃ st1 w1 tbl1 st' w' tbl',
    loop pre no_stats w tbl = (Continue, st1, w1, tbl1) ∧
    batch svc limit w tbl = (st', w', tbl') ∧
    let fin :=
      settled_row item (pushed_ok item w1).1
        (utcnow (pushed_ok item w1).2).1 in
    fin ∈ tbl' ∧ ∀ r, r ∈ tbl' → id r = id item → r = fin.
Proof.
  intros Hrel Hen Hnd Hsel.
  assert (NoDup (ids (pre ++ item :: post))) as Hnd'.
  { rewrite <- Hsel. by apply pending_items_NoDup. }
  apply split_NoDup_ids in Hnd' as [Hpre Hpost].
  assert (item ∈ tbl) as Hin.
  { apply (pending_items_elem limit). rewrite Hsel. set_solver. }
  destruct (push_loop_settles execute db_commit utcnow Hrel
              pre item post no_stats w tbl Hpre Hpost Hin)
    as (st1 & w1 & tbl1 & st' & w' & tbl' & Hl1 & Hl & Hfin).
  exists st1, w1, tbl1, st', w', tbl'. split; [exact Hl1|]. split; [|exact Hfin].
  unfold push_pending_changes. rewrite Hen. simpl. by rewrite Hsel, Hl.
Qed.

(** When the limit covers every pending row, none is pending afterwards. *)
Lemma batch_leaves_no_pending svc limit w tbl :
  reliable db_commit → is_enabled svc = true → NoDup (ids tbl) →
  (length (with_status "pending" tbl) ≤ limit)%nat →
  ∀ r, r ∈ (batch svc limit w tbl).2 → status r ≠ "pending".
Proof.
  intros Hrel Hen Hnd Hlim r Hr Hpend.
  assert (pending_items limit tbl = with_status "pending" tbl) as Hall.
  { unfold pending_items. by apply take_ge. }
  destruct (decide (id r ∈ ids (pending_items limit tbl))) as [Hsel|Hsel].
  - unfold ids in Hsel. apply list_elem_of_fmap in Hsel as (item & Hid & Hitem).
    apply list_elem_of_split in Hitem as (pre & post & Hsplit).
    destruct (batch_settles svc limit w tbl pre item post Hrel Hen Hnd Hsplit)
      as (st1 & w1 & tbl1 & st' & w' & tbl' & _ & Hb & _ & Huniq).
    rewrite Hb in Hr. simpl in Hr. rewrite (Huniq r Hr Hid) in Hpend.
    unfold settled_row in Hpend. by destruct (pushed_ok item w1).1.
  - unfold push_pending_changes in Hr. rewrite Hen in Hr. simpl in Hr.
    destruct (loop (pending_items limit tbl) no_stats w tbl)
      as [[[fl st'] w'] tbl'] eqn:Hl.
    apply push_loop_rewrites in Hl. simpl in Hr.
    apply (rewrites_of_frame _ _ _ r Hl Hsel) in Hr.
    apply Hsel. unfold ids. apply list_elem_of_fmap_2. rewrite Hall.
    by apply list_elem_of_filter.
Qed.
End ReliableBatch.

(** ** What the engine keeps true of the queue *)
Section Invariants.
Context {World : Type}.
Variable execute : Request → World → Response * World.
Variable db_commit : World → option string * World.
Variable utcnow : World → Z * World.

#[local] Abbreviation loop := (push_loop execute db_commit utcnow).
#[local] Abbreviation batch := (push_pending_changes execute db_commit utcnow).
#[local] Abbreviation op := (run_op execute db_commit utcnow).
#[local] Abbreviation ops := (run_ops execute db_commit utcnow).

(** The table after a batch, whatever the outside world does: the keys are
    those of before, and every row is a row of before or one written for a
    selected item. *)
Lemma batch_table svc limit w tbl :
  let tbl' := (batch svc limit w tbl).2 in
  ids tbl' = ids tbl ∧
  rewrites_of (ids (pending_items limit tbl)) tbl tbl' ∧
  ∀ r, r ∈ tbl' →
       r ∈ tbl ∨ ∃ item, item ∈ pending_items limit tbl ∧ written_for item r.
Proof.
  unfold push_pending_changes. destruct (negb (is_enabled svc)); simpl.
  { split; [done|]. split; [apply rewrites_by_refl|]. by left. }
  destruct (loop (pending_items limit tbl) no_stats w tbl)
    as [[[fl st'] w'] tbl'] eqn:Hl. simpl.
  split; [|split].
  - eapply rewrites_of_ids, push_loop_rewrites, Hl.
  - eapply push_loop_rewrites, Hl.
  - intros r Hr. apply push_loop_writes in Hl.
    exact (rewrites_by_elem _ _ _ r Hl Hr).
Qed.

Lemma run_op_NoDup o w tbl :
  NoDup (ids tbl) → NoDup (ids (op o w tbl).2).
Proof.
  intros Hnd. destruct o as [svc t r o d|svc limit|days|]; simpl.
  - unfold add_to_queue. destruct (negb (is_enabled svc)); [done|].
    destruct (utcnow w) as [now w1]. destruct (db_commit w1) as [[e|] w2];
      [done|]. simpl. unfold ids. rewrite fmap_app. simpl.
    apply NoDup_app. split; [exact Hnd|]. split; [|apply NoDup_singleton].
    intros i Hi Hi'. apply list_elem_of_singleton in Hi'. subst i.
    by apply (next_id_fresh tbl).
  - destruct (batch svc limit w tbl) as [[st w'] tbl'] eqn:Hb. simpl.
    pose proof (batch_table svc limit w tbl) as [Hids _].
    rewrite Hb in Hids. simpl in Hids. by rewrite Hids.
  - unfold clear_synced_items. destruct (utcnow w) as [now w1].
    destruct (db_commit w1) as [[e|] w2]; [done|]. simpl.
    eapply sublist_NoDup; [exact Hnd|]. unfold ids.
    apply fmap_sublist, sublist_filter.
  - done.
Qed.

Lemma run_ops_NoDup os w tbl :
  NoDup (ids tbl) → NoDup (ids (ops os w tbl).2).
Proof.
  revert w tbl. induction os as [|o os IH]; intros w tbl Hnd; [done|].
  simpl. pose proof (run_op_NoDup o w tbl Hnd) as Hnd'.
  destruct (op o w tbl) as [w' tbl']. by apply IH.
Qed.

(** Only failed rows carry an error message, and the engine keeps it so. *)
Lemma run_op_error_only_on_failed o w tbl :
  error_only_on_failed tbl → error_only_on_failed (op o w tbl).2.
Proof.
  intros Hinv. destruct o as [svc t r o d|svc limit|days|]; simpl.
  - unfold add_to_queue. destruct (negb (is_enabled svc)); [done|].
    destruct (utcnow w) as [now w1]. destruct (db_commit w1) as [[e|] w2];
      [done|]. simpl. intros x Hx Herr.
    apply elem_of_app in Hx as [Hx|Hx]; [by apply Hinv|].
    apply list_elem_of_singleton in Hx. subst x. done.
  - destruct (batch svc limit w tbl) as [[st w'] tbl'] eqn:Hb. simpl.
    pose proof (batch_table svc limit w tbl) as (_ & _ & Hrows).
    rewrite Hb in Hrows. simpl in Hrows. intros x Hx Herr.
    destruct (Hrows x Hx) as [Hold|(item & Hitem & Hw)]; [by apply Hinv|].
    eapply written_for_error; [exact Hw| |exact Herr].
    apply pending_items_elem in Hitem as [Hitem Hpend].
    destruct (error_message item) as [e|] eqn:He; [|done].
    assert (status item = "failed") as Hf by (apply Hinv; [done|by rewrite He]).
    rewrite Hpend in Hf. discriminate Hf.
  - unfold clear_synced_items. destruct (utcnow w) as [now w1].
    destruct (db_commit w1) as [[e|] w2]; [done|]. simpl.
    intros x Hx. apply list_elem_of_filter in Hx as [_ Hx]. by apply Hinv.
  - done.
Qed.

Lemma run_ops_error_only_on_failed os w tbl :
  error_only_on_failed tbl → error_only_on_failed (ops os w tbl).2.
Proof.
  revert w tbl. induction os as [|o os IH]; intros w tbl Hinv; [done|].
  simpl. pose proof (run_op_error_only_on_failed o w tbl Hinv) as Hinv'.
  destruct (op o w tbl) as [w' tbl']. by apply IH.
Qed.

(** A row that is not pending is out of the reach of a batch. *)
Lemma batch_keeps_settled_row svc limit w tbl r :
  NoDup (ids tbl) → r ∈ tbl → status r ≠ "pending" →
  r ∈ (batch svc limit w tbl).2.
Proof.
  intros Hnd Hr Hst.
  pose proof (batch_table svc limit w tbl) as (_ & Hrw & _).
  apply (rewrites_of_frame _ _ _ r Hrw); [|exact Hr].
  unfold ids. intros Hin. apply list_elem_of_fmap in Hin as (item & Hid & Hitem).
  apply pending_items_elem in Hitem as [Hitem Hpend].
  apply Hst. by rewrite (NoDup_ids_inj tbl r item Hnd Hr Hitem Hid).
Qed.

(** Nor does any other operation change it; only the sweep of old synced
    rows can remove it. *)
Lemma run_op_keeps_settled_row r o w tbl :
  NoDup (ids tbl) → r ∈ tbl → status r ≠ "pending" →
  status r ≠ "synced" ∨ (∀ days, o ≠ ClearSynced days) →
  r ∈ (op o w tbl).2.
Proof.
  intros Hnd Hr Hst Hsweep.
  destruct o as [svc t rid o d|svc limit|days|]; simpl.
  - unfold add_to_queue. destruct (negb (is_enabled svc)); [done|].
    destruct (utcnow w) as [now w1]. destruct (db_commit w1) as [[e|] w2];
      [done|]. simpl. apply elem_of_app. by left.
  - pose proof (batch_keeps_settled_row svc limit w tbl r Hnd Hr Hst) as Hk.
    by destruct (batch svc limit w tbl) as [[st w'] tbl'].
  - unfold clear_synced_items. destruct (utcnow w) as [now w1].
    destruct (db_commit w1) as [[e|] w2]; [done|]. simpl.
    apply list_elem_of_filter. split; [|done].
    destruct Hsweep as [Hns|Hno]; [|by destruct (Hno days)].
    unfold is_stale. rewrite bool_decide_false by done. done.
  - done.
Qed.

Lemma run_ops_keeps_settled_row r os w tbl :
  NoDup (ids tbl) → r ∈ tbl → status r ≠ "pending" →
  status r ≠ "synced" ∨ (∀ days, ClearSynced days ∉ os) →
  r ∈ (ops os w tbl).2.
Proof.
  revert w tbl. induction os as [|o os IH]; intros w tbl Hnd Hr Hst Hsweep;
    [done|].
  simpl.
  pose proof (run_op_NoDup o w tbl Hnd) as Hnd'.
  pose proof (run_op_keeps_settled_row r o w tbl Hnd Hr Hst) as Hr'.
  destruct (op o w tbl) as [w' tbl']. apply IH; [done| |done|].
  - apply Hr'. destruct Hsweep as [Hns|Hno]; [by left|right].
    intros days ->. apply (Hno days). apply list_elem_of_here.
  - destruct Hsweep as [Hns|Hno]; [by left|right].
    intros days Hin. apply (Hno days). by apply list_elem_of_further.
Qed.
End Invariants.

(** ** The outcome of a push, record by record *)
Section Outcomes.
Context {World : Type}.
Variable execute : Request → World → Response * World.
Variable db_commit : World → option string * World.
Variable utcnow : World → Z * World.

#[local] Abbreviation process := (process_item execute db_commit utcnow).
#[local] Abbreviation loop := (push_loop execute db_commit utcnow).
#[local] Abbreviation batch := (push_pending_changes execute db_commit utcnow).
#[local] Abbreviation pushed_ok := (push_of execute db_commit).
#[local] Abbreviation ops := (run_ops execute db_commit utcnow).

(** C4, as the code has it.  Over a store whose commits go through, a
    selected record whose push succeeds ends with [status = "synced"] and
    [synced_at] the clock reading taken right after the push; its
    [error_message] (like its [retry_count]) is left as it was, which is
    [None] on every queue that the engine itself has built. *)
Theorem successful_push_marks_synced (svc : SyncService) (limit : nat)
    (w : World) (tbl : Table) (pre post : list row) (item : row)
    (st1 : Stats) (w1 : World) (tbl1 : Table) :
  reliable db_commit → is_enabled svc = true → NoDup (ids tbl) →
  pending_items limit tbl = pre ++ item :: post →
  loop pre no_stats w tbl = (Continue, st1, w1, tbl1) →
  (pushed_ok item w1).1 = true →
  ∃ r, r ∈ (batch svc limit w tbl).2 ∧ id r = id item ∧
       (∀ r', r' ∈ (batch svc limit w tbl).2 → id r' = id item → r' = r) ∧
       status r = "synced" ∧
       synced_at r = Some (utcnow (pushed_ok item w1).2).1 ∧
       error_message r = error_message item ∧
       retry_count r = retry_count item ∧
       (∀ os w0, tbl = (ops os w0 []).2 → error_message r = None).
Proof.
  intros Hrel Hen Hnd Hsel Hpre Hok.
  destruct (batch_settles execute db_commit utcnow svc limit w tbl
              pre item post Hrel Hen Hnd Hsel)
    as (st1' & w1' & tbl1' & st' & w' & tbl' & Hpre' & Hb & Hin & Huniq).
  rewrite Hpre in Hpre'. injection Hpre' as <- <- <-.
  rewrite Hok in Hin, Huniq. rewrite Hb. simpl.
  eexists. split; [exact Hin|]. split; [done|]. split; [exact Huniq|].
  split; [done|]. split; [done|]. split; [done|]. split; [done|].
  intros os w0 ->. simpl.
  assert (item ∈ (ops os w0 []).2) as Hitem.
  { apply (pending_items_elem limit). rewrite Hsel. set_solver. }
  assert (status item = "pending") as Hpend.
  { apply (pending_items_elem limit (ops os w0 []).2). rewrite Hsel. set_solver. }
  destruct (error_message item) as [e|] eqn:He; [|done].
  assert (status item = "failed") as Hf.
  { eapply (run_ops_error_only_on_failed execute db_commit utcnow os w0 []);
      [|exact Hitem|by rewrite He].
    intros x Hx. by apply elem_of_nil in Hx. }
  rewrite Hpend in Hf. discriminate Hf.
Qed.

(** C6.  A failed push never ends the batch: an iteration leaves the loop
    early only when the local commit inside the exception handler raises,
    whatever the remote service did.  Over a store whose commits go
    through, the loop therefore runs over every selected record whatever
    the pushes of the records before it did: the push of each record is
    issued in the world its predecessors leave behind, its row is settled
    by that push alone ([synced] when it succeeded, [failed] with one more
    retry when it did not), and each selected record is counted once. *)
Theorem push_failure_does_not_block_the_batch (svc : SyncService)
    (limit : nat) (w : World) (tbl : Table) :
  (∀ item st v t st' v' t',
     process item st v t = (Abort, st', v', t') →
     ∃ w1 e1 w2 e2 w3,
       db_commit w1 = (Some e1, w2) ∧ db_commit w2 = (Some e2, w3)) ∧
  (reliable db_commit → is_enabled svc = true → NoDup (ids tbl) →
   (∃ st w' tbl',
      loop (pending_items limit tbl) no_stats w tbl
        = (Continue, st, w', tbl') ∧
      batch svc limit w tbl = (st, w', tbl') ∧
      pushed st + failed st = Z.of_nat (length (pending_items limit tbl))) ∧
   (∀ pre item post,
      pending_items limit tbl = pre ++ item :: post →
      ∃ st1 w1 tbl1 r,
        loop pre no_stats w tbl = (Continue, st1, w1, tbl1) ∧
        r ∈ (batch svc limit w tbl).2 ∧ id r = id item ∧
        (∀ r', r' ∈ (batch svc limit w tbl).2 → id r' = id item → r' = r) ∧
        status r = (if (pushed_ok item w1).1 then "synced" else "failed") ∧
        retry_count r =
          (if (pushed_ok item w1).1 then retry_count item
           else retry_count item + 1))).
Proof.
  split; [apply process_item_abort|].
  intros Hrel Hen Hnd. split.
  - destruct (push_loop_reliable execute db_commit utcnow Hrel
                (pending_items limit tbl) no_stats w tbl)
      as (st & w' & tbl' & Hl & Hsum).
    exists st, w', tbl'. split; [exact Hl|]. split.
    + unfold push_pending_changes. rewrite Hen. simpl. by rewrite Hl.
    + rewrite Hsum. simpl. lia.
  - intros pre item post Hsel.
    destruct (batch_settles execute db_commit utcnow svc limit w tbl
                pre item post Hrel Hen Hnd Hsel)
      as (st1 & w1 & tbl1 & st' & w' & tbl' & Hpre & Hb & Hin & Huniq).
    rewrite Hb. simpl. exists st1, w1, tbl1. eexists.
    split; [exact Hpre|]. split; [exact Hin|].
    unfold settled_row. destruct (pushed_ok item w1).1; simpl.
    + split; [done|]. split; [|done]. intros r' Hr' Hid.
      by apply Huniq.
    + split; [done|]. split; [|done]. intros r' Hr' Hid.
      by apply Huniq.
Qed.
End Outcomes.

(** ** The life cycle of a row *)
Section LifeCycle.
Context {World : Type}.
Variable execute : Request → World → Response * World.
Variable db_commit : World → option string * World.
Variable utcnow : World → Z * World.

#[local] Abbreviation process := (process_item execute db_commit utcnow).
#[local] Abbreviation batch := (push_pending_changes execute db_commit utcnow).
#[local] Abbreviation ops := (run_ops execute db_commit utcnow).

(** C8: a batch on a queue without pending rows returns
    [{pushed: 0, failed: 0, skipped: 0}] and leaves the queue (and the
    outside world) as they were; hence the batch that follows one after
    which every row is [synced] returns the same zeros, and so does, over
    a store whose commits go through, the batch that follows one whose
    limit covered every pending row. *)
Theorem batch_without_pending_is_noop (svc : SyncService) (limit : nat)
    (w : World) (tbl : Table) :
  ((∀ r, r ∈ tbl → status r ≠ "pending") →
   batch svc limit w tbl = (no_stats, w, tbl)) ∧
  (∀ limit',
     let '(_, w1, tbl1) := batch svc limit w tbl in
     (∀ r, r ∈ tbl1 → status r = "synced") →
     batch svc limit' w1 tbl1 = (no_stats, w1, tbl1)) ∧
  (∀ limit',
     reliable db_commit → is_enabled svc = true → NoDup (ids tbl) →
     (length (with_status "pending" tbl) ≤ limit)%nat →
     let '(_, w1, tbl1) := batch svc limit w tbl in
     batch svc limit' w1 tbl1 = (no_stats, w1, tbl1)).
Proof.
  assert (∀ l v t, (∀ r, r ∈ t → status r ≠ "pending") →
                   batch svc l v t = (no_stats, v, t)) as Hnoop.
  { intros l v t Hno. unfold push_pending_changes.
    destruct (negb (is_enabled svc)); [done|].
    by rewrite pending_items_none. }
  split; [apply Hnoop|]. split.
  - intros limit'. destruct (batch svc limit w tbl) as [[st1 w1] tbl1].
    intros Hall. apply Hnoop. intros r Hr. rewrite (Hall r Hr). done.
  - intros limit' Hrel Hen Hnd Hlim.
    pose proof (batch_leaves_no_pending execute db_commit utcnow
                  svc limit w tbl Hrel Hen Hnd Hlim) as Hnone.
    destruct (batch svc limit w tbl) as [[st1 w1] tbl1].
    apply Hnoop. exact Hnone.
Qed.

(** C7, as the code has it.  A record enters the queue as [pending].
    The commits of one iteration take the status of its row along
    [pending → syncing → synced] or [pending → syncing → failed], or,
    when the commit of the [syncing] mark raises, straight along
    [pending → failed]; over a store whose commits go through it is always
    the two edges.  A [failed] or [synced] row is never written again by
    any sequence of operations of the engine (a [synced] row can only be
    removed by the sweep of old synced rows), so that no later batch
    selects it. *)
Theorem status_life_cycle :
  (∀ svc t rid o d w tbl item w' tbl',
     add_to_queue db_commit utcnow svc t rid o d w tbl
       = (Returns (Some item), w', tbl') →
     status item = "pending" ∧ tbl' = tbl ++ [item]) ∧
  (∀ item st w tbl,
     status item = "pending" →
     ∃ path,
       Forall (λ x, id x = id item) path ∧
       (process item st w tbl).2 = commit_all path tbl ∧
       follows status_move "pending" path) ∧
  (reliable db_commit →
   ∀ item st w tbl, status item = "pending" →
     ∃ mid fin w1 st' w2,
       mark_syncing db_commit item w tbl = (None, w1, update_row mid tbl) ∧
       process item st w tbl
         = settle execute db_commit utcnow mid st w1 (update_row mid tbl) ∧
       settle execute db_commit utcnow mid st w1 (update_row mid tbl)
         = (Continue, st', w2, update_row fin (update_row mid tbl)) ∧
       id mid = id item ∧ id fin = id item ∧
       status_edge (status item) (status mid) ∧
       status_edge (status mid) (status fin)) ∧
  (∀ r os w tbl,
     NoDup (ids tbl) → r ∈ tbl →
     status r = "failed" ∨ status r = "synced" →
     let tbl' := (ops os w tbl).2 in
     (r ∈ tbl' ∧
      (∀ r', r' ∈ tbl' → id r' = id r → r' = r) ∧
      (∀ limit x, x ∈ pending_items limit tbl' → id x ≠ id r)) ∨
     (status r = "synced" ∧ ∃ days, ClearSynced days ∈ os)).
Proof.
  split; [|split; [|split]].
  - intros svc t rid o d w tbl item w' tbl'. unfold add_to_queue.
    destruct (negb (is_enabled svc)); [by intros [= ]|].
    destruct (utcnow w) as [now w1]. destruct (db_commit w1) as [[e|] w2];
      [by intros [= ]|].
    by intros [= <- <- <-].
  - intros item st w tbl Hpend.
    destruct (process item st w tbl) as [[[fl st'] w'] tbl'] eqn:Hp.
    exact (process_item_path execute db_commit utcnow
             item st w tbl fl st' w' tbl' Hpend Hp).
  - intros Hrel item st w tbl Hpend.
    pose proof (commit_goes_through db_commit Hrel) as Hc.
    unfold process_item, mark_syncing. rewrite (Hc w).
    exists (set_status "syncing" item). unfold settle.
    destruct (_push_item execute (set_status "syncing" item) (db_commit w).2)
      as [[|] wp] eqn:Hp.
    + destruct (utcnow wp) as [now wn] eqn:Hn. rewrite (Hc wn).
      do 4 eexists. split; [done|]. rewrite Hp, Hn, (Hc wn).
      split; [done|]. split; [done|].
      split; [done|]. split; [done|]. simpl. rewrite Hpend.
      split; constructor.
    + rewrite (Hc wp).
      do 4 eexists. split; [done|]. rewrite Hp, (Hc wp).
      split; [done|]. split; [done|].
      split; [done|]. split; [done|]. simpl. rewrite Hpend.
      split; constructor.
  - intros r os w tbl Hnd Hr Hst tbl'.
    assert (status r ≠ "pending") as Hnp by (destruct Hst as [-> | ->]; done).
    assert (r ∈ tbl' → 
            r ∈ tbl' ∧ (∀ r', r' ∈ tbl' → id r' = id r → r' = r) ∧
            (∀ limit x, x ∈ pending_items limit tbl' → id x ≠ id r)) as Hkeep.
    { intros Hr'. pose proof (run_ops_NoDup execute db_commit utcnow
                                os w tbl Hnd) as Hnd'.
      fold tbl' in Hnd'. split; [exact Hr'|]. split.
      - intros r' Hin Hid. by apply (NoDup_ids_inj tbl').
      - intros limit x Hx Hid. apply pending_items_elem in Hx as [Hx Hpend].
        apply Hnp. by rewrite <- (NoDup_ids_inj tbl' x r Hnd' Hx Hr' Hid). }
    destruct (decide (status r = "synced")) as [Hs|Hs].
    + destruct (decide (Exists (λ o, is_sweep o = true) os)) as [Hex|Hno].
      * right. split; [exact Hs|]. apply Exists_exists in Hex as (o & Ho & Hsw).
        destruct o; try discriminate Hsw. eauto.
      * left. apply Hkeep. apply run_ops_keeps_settled_row; [done..|].
        right. intros days Hin. apply Hno. apply Exists_exists.
        exists (ClearSynced days). by split.
    + left. apply Hkeep. apply run_ops_keeps_settled_row; [done..|]. by left.
Qed.
End LifeCycle.

(** ** The engine on concrete queues *)

Lemma commit_ok_reliable : reliable commit_ok.
Proof. intros n. reflexivity. Qed.

Lemma three_pending_NoDup : NoDup (ids three_pending).
Proof.
  apply (bool_decide_unpack _). vm_compute. exact I.
Qed.

(** C5, where the code departs from it.  One pending [update] and a remote
    service that times out, or one that answers with no rows: the row ends
    [failed] with [retry_count = 1], but its [error_message] is still
    [None].  [_push_item] has swallowed the exception and reported
    [False], and the [else] branch of the loop body sets no message; only
    the [except] branch, which a raising local commit reaches, does. *)
Theorem failed_push_records_no_reason :
  push_pending_changes stub_times_out commit_ok tick_clock svc_on 100
    0%nat [pending_row 1 "update" "7"]
  = (MkStats 0 1 0, 3%nat,
     [Row 1 "contacts" "7" "update" (Some [("name", "Alice")])
          "failed" 1 None 0 None]) ∧
  push_pending_changes stub_rejects commit_ok tick_clock svc_on 100
    0%nat [pending_row 1 "update" "7"]
  = (MkStats 0 1 0, 3%nat,
     [Row 1 "contacts" "7" "update" (Some [("name", "Alice")])
          "failed" 1 None 0 None]) ∧
  push_pending_changes stub_succeeds (commit_fails_at 0) tick_clock svc_on 100
    0%nat [pending_row 1 "update" "7"]
  = (MkStats 0 1 0, 2%nat,
     [Row 1 "contacts" "7" "update" (Some [("name", "Alice")])
          "failed" 1 (Some "database is locked") 0 None]).
Proof. repeat split; vm_compute; reflexivity. Qed.

Lemma successful_push_marks_synced_witness :
  ∃ r, r ∈ (push_pending_changes stub_succeeds commit_ok tick_clock svc_on 2
              0%nat three_pending).2 ∧
       id r = 2 ∧ status r = "synced" ∧ synced_at r = Some 6 ∧
       error_message r = None.
Proof.
  destruct (successful_push_marks_synced stub_succeeds commit_ok tick_clock
              svc_on 2 0%nat three_pending
              [pending_row 1 "create" "7"] [] (pending_row 2 "update" "7")
              (MkStats 1 0 0) 4%nat
              (update_row
                 (set_synced_at (Some 2)
                    (set_status "synced" (pending_row 1 "create" "7")))
                 three_pending)
              commit_ok_reliable eq_refl three_pending_NoDup
              eq_refl eq_refl eq_refl)
    as (r & Hin & Hid & _ & Hst & Hat & Herr & _).
  exists r. split; [exact Hin|]. split; [exact Hid|]. split; [exact Hst|].
  split; [exact Hat|]. exact Herr.
Defined.

Lemma push_failure_does_not_block_the_batch_witness :
  ∃ st w' tbl',
    push_loop stub_times_out commit_ok tick_clock
      (pending_items 2 three_pending) no_stats 0%nat three_pending
      = (Continue, st, w', tbl') ∧
    push_pending_changes stub_times_out commit_ok tick_clock svc_on 2
      0%nat three_pending = (st, w', tbl') ∧
    pushed st + failed st = Z.of_nat (length (pending_items 2 three_pending)).
Proof.
  exact (proj1 (proj2 (push_failure_does_not_block_the_batch stub_times_out
                         commit_ok tick_clock svc_on 2 0%nat three_pending)
                  commit_ok_reliable eq_refl three_pending_NoDup)).
Defined.

Lemma batch_without_pending_is_noop_witness :
  (∀ r, r ∈ all_synced → status r ≠ "pending") ∧
  push_pending_changes stub_succeeds commit_ok tick_clock svc_on 100
    0%nat all_synced = (no_stats, 0%nat, all_synced).
Proof.
  assert (∀ r, r ∈ all_synced → status r ≠ "pending") as Hno.
  { intros r Hr. unfold all_synced in Hr.
    apply elem_of_cons in Hr as [->|Hr]; [done|].
    apply list_elem_of_singleton in Hr as ->. done. }
  split; [exact Hno|].
  exact (proj1 (batch_without_pending_is_noop stub_succeeds commit_ok
                  tick_clock svc_on 100 0%nat all_synced) Hno).
Defined.

Lemma status_life_cycle_witness :
  let r := set_retry_count 1 (set_status "failed" (pending_row 1 "update" "7")) in
  let tbl' :=
    (run_ops stub_succeeds commit_ok tick_clock
       [PushBatch svc_on 100; Capture svc_on "contacts" "9" "create" None;
        PushBatch svc_on 100] 0%nat one_failed).2 in
  r ∈ tbl' ∧ ∀ limit x, x ∈ pending_items limit tbl' → id x ≠ id r.
Proof.
  intros r tbl'.
  assert (NoDup (ids one_failed)) as Hnd
    by (apply (bool_decide_unpack _); vm_compute; exact I).
  assert (r ∈ one_failed) as Hin by apply list_elem_of_here.
  destruct (proj2 (proj2 (proj2
              (status_life_cycle stub_succeeds commit_ok tick_clock)))
              r [PushBatch svc_on 100;
                 Capture svc_on "contacts" "9" "create" None;
                 PushBatch svc_on 100] 0%nat one_failed Hnd Hin
              (or_introl eq_refl))
    as [(Hr & _ & Hsel)|(Hs & _)].
  - split; [exact Hr|exact Hsel].
  - discriminate Hs.
Defined.

(** C4, refuted as stated: the success branch never assigns
    [error_message].  A pending row that carries an old failure reason is
    pushed successfully and keeps the reason. *)
Lemma success_keeps_old_error_message :
  push_pending_changes stub_succeeds commit_ok tick_clock svc_on 100
    0%nat [requeued_row]
  = (MkStats 1 0 0, 4%nat,
     [Row 1 "contacts" "7" "update" (Some [("name", "Alice")])
          "synced" 0 (Some "timeout") 0 (Some 2)]).
Proof. vm_compute. reflexivity. Qed.

(** ** Status reporting *)

Lemma count_status_cons s r (tbl : Table) :
  count_status s (r :: tbl)
  = (if decide (status r = s) then 1 else 0) + count_status s tbl.
Proof.
  unfold count_status, with_status.
  rewrite (filter_cons (λ x, status x = s)).
  destruct (decide (status r = s)); simpl length.
  - rewrite Nat2Z.inj_succ. unfold Z.succ. rewrite Z.add_comm. reflexivity.
  - reflexivity.
Qed.

Lemma count_status_total (tbl : Table) :
  (∀ r, r ∈ tbl →
        status r = "pending" ∨ status r = "syncing" ∨
        status r = "failed" ∨ status r = "synced") →
  count_status "pending" tbl + count_status "syncing" tbl +
  count_status "failed" tbl + count_status "synced" tbl
  = Z.of_nat (length tbl).
Proof.
  induction tbl as [|r tbl IH]; intros Hst.
  - done.
  - assert (∀ x, x ∈ tbl →
                 status x = "pending" ∨ status x = "syncing" ∨
                 status x = "failed" ∨ status x = "synced") as Hst'.
    { intros x Hx. apply Hst. by apply list_elem_of_further. }
    specialize (IH Hst'). rewrite !count_status_cons.
    destruct (Hst r (list_elem_of_here r tbl)) as [H|[H|[H|H]]]; rewrite H;
      repeat case_decide; try done; simpl length; lia.
Qed.

(** C9, refuted as stated: with sync disabled, [get_status] returns
    [{"enabled": False}] and none of the counts. *)
Lemma disabled_status_has_no_counts :
  get_status (MkManager svc_off false false) three_pending
    = {["enabled" := VBool false]} ∧
  get_status (MkManager svc_off false false) three_pending !! "pending" = None.
Proof. split; reflexivity. Qed.

(** C9, as the code has it.  With sync enabled, [get_status] returns the
    flag [enabled = True], the flag [is_syncing], and the four counts and
    [total]; each count is the number of rows of the queue with that
    status, [total] is their sum, which is the number of rows when every
    row has one of the four statuses.  With sync disabled it returns
    [{"enabled": False}] alone. *)
Theorem get_status_counts (m : SyncManager) (tbl : Table) :
  (is_enabled (sync_service m) = true →
   let st := get_status m tbl in
   let n s := Z.of_nat (length (filter (λ r, status r = s) tbl)) in
   st !! "enabled" = Some (VBool true) ∧
   st !! "is_syncing" = Some (VBool (is_syncing m)) ∧
   st !! "pending" = Some (VInt (n "pending")) ∧
   st !! "syncing" = Some (VInt (n "syncing")) ∧
   st !! "failed" = Some (VInt (n "failed")) ∧
   st !! "synced" = Some (VInt (n "synced")) ∧
   st !! "total"
     = Some (VInt (n "pending" + n "syncing" + n "failed" + n "synced")) ∧
   ((∀ r, r ∈ tbl →
          status r = "pending" ∨ status r = "syncing" ∨
          status r = "failed" ∨ status r = "synced") →
    st !! "total" = Some (VInt (Z.of_nat (length tbl))))) ∧
  (is_enabled (sync_service m) = false →
   get_status m tbl = {["enabled" := VBool false]}).
Proof.
  split.
  - intros Hen st n. unfold st, get_status, get_queue_status. rewrite Hen.
    simpl. repeat split; try by simplify_map_eq.
    intros Hall. rewrite <- (count_status_total tbl Hall). by simplify_map_eq.
  - intros Hen. unfold get_status. by rewrite Hen.
Qed.

Lemma get_status_counts_witness :
  get_status (MkManager svc_on true false) three_pending !! "pending"
    = Some (VInt 3) ∧
  get_status (MkManager svc_on true false) three_pending !! "total"
    = Some (VInt 3).
Proof.
  destruct (proj1 (get_status_counts (MkManager svc_on true false)
                     three_pending) eq_refl)
    as (_ & _ & Hp & _ & _ & _ & Ht & _).
  split; [exact Hp|exact Ht].
Defined.

(** ** Triggers of [sync] *)

Section Triggers.
Context {World : Type}.
Variable execute : Request → World → Response * World.
Variable db_commit : World → option string * World.
Variable utcnow : World → Z * World.

#[local] Abbreviation batch := (push_pending_changes execute db_commit utcnow).
#[local] Abbreviation handle_trigger := (handle execute db_commit utcnow).
#[local] Abbreviation dispatch_all := (dispatch execute db_commit utcnow).

(** A slot that starts with no sync in progress runs one batch, if sync is
    enabled, and returns with the manager as it found it. *)
Lemma handle_from_rest t m w tbl :
  is_syncing m = false →
  handle_trigger t m w tbl
  = (m,
     if is_enabled (sync_service m)
     then Some (stats_dict (batch (sync_service m) 100 w tbl).1.1
                ∪ get_queue_status (batch (sync_service m) 100 w tbl).2)
     else None,
     (batch (sync_service m) 100 w tbl).1.2,
     (batch (sync_service m) 100 w tbl).2).
Proof.
  intros Hf. destruct m as [svc tm fl]. simpl in Hf. subst fl.
  destruct t; unfold handle, sync_now, sync, sync_enter, sync_body; simpl;
    destruct (is_enabled svc) eqn:Hen; simpl.
  all: try (destruct (batch svc 100 w tbl) as [[st v] t'] eqn:Hb; done).
  all: unfold push_pending_changes; by rewrite Hen.
Qed.

Lemma dispatch_app pre post m w tbl :
  dispatch_all (pre ++ post) m w tbl
  = let '(m1, log1, w1, tbl1) := dispatch_all pre m w tbl in
    let '(m2, log2, w2, tbl2) := dispatch_all post m1 w1 tbl1 in
    (m2, log1 ++ log2, w2, tbl2).
Proof.
  revert m w tbl. induction pre as [|t pre IH]; intros m w tbl; simpl.
  - by destruct (dispatch_all post m w tbl) as [[[m2 log2] w2] tbl2].
  - destruct (handle_trigger t m w tbl) as [[[m1 e] w1] tbl1].
    rewrite IH.
    destruct (dispatch_all pre m1 w1 tbl1) as [[[m2 log2] w2] tbl2].
    destruct (dispatch_all post m2 w2 tbl2) as [[[m3 log3] w3] tbl3].
    by rewrite app_assoc.
Qed.

(** The triggers handled in turn amount to the batches run in turn. *)
Lemma dispatch_from_rest ts m w tbl :
  is_syncing m = false →
  (dispatch_all ts m w tbl).1.1.1 = m ∧
  ((dispatch_all ts m w tbl).1.2, (dispatch_all ts m w tbl).2)
  = run_ops execute db_commit utcnow
      (replicate (length ts) (PushBatch (sync_service m) 100)) w tbl ∧
  length (dispatch_all ts m w tbl).1.1.2
  = (if is_enabled (sync_service m) then length ts else 0%nat).
Proof.
  intros Hf. revert w tbl. induction ts as [|t ts IH]; intros w tbl.
  - simpl. by destruct (is_enabled (sync_service m)).
  - simpl. rewrite (handle_from_rest t m w tbl Hf).
    destruct (batch (sync_service m) 100 w tbl) as [[st w1] tbl1]. simpl.
    destruct (IH w1 tbl1) as (Hm & Hrun & Hlen).
    destruct (dispatch_all ts m w1 tbl1) as [[[m2 log] w2] tbl2].
    simpl in *. split; [exact Hm|]. split; [exact Hrun|].
    rewrite length_app, Hlen.
    by destruct (is_enabled (sync_service m)).
Qed.

(** C2, refuted as stated: no trigger is dropped.  The timer ticks on a
    queue of 101 pending rows and a manual trigger arrives while that sync
    runs; the manual trigger is handled once the sync has returned and
    runs a second batch, which pushes the row that the limit of the first
    batch had left. *)
Lemma manual_trigger_is_not_dropped :
  (λ status, status !! "pushed")
    <$> (dispatch stub_succeeds commit_ok tick_clock [Tick; Manual]
           idle 0%nat many_pending).1.1.2
  = [Some (VInt 100); Some (VInt 1)].
Proof. vm_compute. reflexivity. Qed.

(** C2, as the code has it.  At most one batch push runs at a time and
    two executions of [push_pending_changes] never overlap: [sync] runs to
    its end in the slot that called it and clears [is_syncing] before it
    returns, so every trigger, whatever came before it, finds no sync in
    progress, and the triggers handled in turn amount to the batches run
    in turn, each on the queue that the one before has left.  No trigger is
    dropped: with sync enabled every trigger, periodic or manual, runs its
    own batch and emits its status.  The guard itself would make an
    unforced call that found [is_syncing] set return at once, while
    [sync_now], which forces, runs its batch whatever the flag says. *)
Theorem sync_calls_run_one_after_another (ts : list Trigger)
    (m : SyncManager) (w : World) (tbl : Table) :
  is_syncing m = false →
  (∀ pre t post,
     ts = pre ++ t :: post →
     let '(m1, _, w1, tbl1) := dispatch_all pre m w tbl in
     is_syncing m1 = false ∧
     (is_enabled (sync_service m) = true →
      ∃ status,
        handle_trigger t m1 w1 tbl1
        = (m1, Some status,
           (batch (sync_service m) 100 w1 tbl1).1.2,
           (batch (sync_service m) 100 w1 tbl1).2))) ∧
  ((dispatch_all ts m w tbl).1.2, (dispatch_all ts m w tbl).2)
  = run_ops execute db_commit utcnow
      (replicate (length ts) (PushBatch (sync_service m) 100)) w tbl ∧
  is_syncing (dispatch_all ts m w tbl).1.1.1 = false ∧
  (is_enabled (sync_service m) = true →
   length (dispatch_all ts m w tbl).1.1.2 = length ts) ∧
  (∀ m w tbl,
     is_syncing m = true →
     sync execute db_commit utcnow false m w tbl = (m, None, w, tbl)) ∧
  (∀ m w tbl,
     is_enabled (sync_service m) = true →
     sync_now execute db_commit utcnow m w tbl
     = let '(status, w', tbl') :=
         sync_body execute db_commit utcnow (set_is_syncing true m) w tbl in
       (set_is_syncing false m, Some status, w', tbl')).
Proof.
  intros Hf.
  destruct (dispatch_from_rest ts m w tbl Hf) as (Hm & Hrun & Hlen).
  split; [|split; [exact Hrun|split; [by rewrite Hm|split; [|split]]]].
  - intros pre t post _.
    destruct (dispatch_from_rest pre m w tbl Hf) as (Hm1 & _ & _).
    destruct (dispatch_all pre m w tbl) as [[[m1 log1] w1] tbl1].
    simpl in Hm1. subst m1. split; [exact Hf|]. intros Hen.
    rewrite (handle_from_rest t m w1 tbl1 Hf), Hen. eauto.
  - intros Hen. by rewrite Hlen, Hen.
  - intros m0 w0 tbl0 Hf0. unfold sync, sync_enter. rewrite Hf0.
    by destruct (negb (is_enabled (sync_service m0))).
  - intros m0 w0 tbl0 Hen. unfold sync_now, sync, sync_enter. rewrite Hen.
    simpl. rewrite andb_false_r.
    by destruct (sync_body execute db_commit utcnow (set_is_syncing true m0)
                   w0 tbl0) as [[status w'] tbl'].
Qed.
End Triggers.

Lemma sync_calls_run_one_after_another_witness :
  length (dispatch stub_succeeds commit_ok tick_clock
            [Tick; Manual; Tick] idle 0%nat three_pending).1.1.2 = 3%nat.
Proof.
  exact (proj1 (proj2 (proj2 (proj2
           (sync_calls_run_one_after_another stub_succeeds commit_ok
              tick_clock [Tick; Manual; Tick] idle 0%nat three_pending
              eq_refl)))) eq_refl).
Defined.

(** ** Capture and the domain transaction *)

(** C1, refuted as stated: capture commits in a session of its own.  The
    queue row is committed (second event of the world), then the commit of
    the domain transaction raises: the change record is there, the domain
    mutation is not. *)
Lemma change_record_survives_domain_rollback :
  domain_transaction (commit_fails_at 2) tick_clock svc_on
    (DoInsert (MkEntity "contacts" "42" [("name", "Alice")]))
    0%nat (MkStore [] [])
  = (Raise "database is locked", 3%nat,
     MkStore []
       [Row 1 "contacts" "42" "create" (Some [("name", "Alice")])
            "pending" 0 None 0 None]).
Proof. vm_compute. reflexivity. Qed.

Section CaptureFacts.
Context {World : Type}.
Variable db_commit : World → option string * World.
Variable utcnow : World → Z * World.

#[local] Abbreviation hook := (mapper_hook db_commit utcnow).
#[local] Abbreviation transaction := (domain_transaction db_commit utcnow).

Lemma mapper_hook_cases svc m w tbl :
  (∃ w', hook svc m w tbl = (Returns (), w', tbl) ∧ is_enabled svc = false) ∨
  (∃ e w', hook svc m w tbl = (Raise e, w', tbl) ∧ is_enabled svc = true) ∨
  (∃ w' item,
     hook svc m w tbl = (Returns (), w', tbl ++ [item]) ∧
     is_enabled svc = true ∧ status item = "pending" ∧
     id item = next_id tbl ∧ retry_count item = 0 ∧
     error_message item = None ∧ synced_at item = None).
Proof.
  destruct m as [e|e|e]; simpl; unfold add_to_sync_queue, add_to_queue;
    (destruct (is_enabled svc) eqn:Hen; simpl; [|left; eauto]);
    destruct (utcnow w) as [now w1]; destruct (db_commit w1) as [[err|] w2];
    right; [left|right|left|right|left|right]; eauto 10.
Qed.

(** C1, as the code has it.  Capture writes the change record in a
    session of its own and commits it there, before and independently of
    the commit of the domain transaction.  If that write raises, it is
    rolled back, the exception reaches the domain transaction and neither
    the record nor the mutation is stored; if the domain transaction
    returns, the mutation is stored together with exactly one new
    [pending] record (none when sync is disabled); if the domain commit
    raises, the mutation is absent while the queue keeps whatever capture
    committed. *)
Theorem capture_commits_on_its_own (svc : SyncService) (m : Mutation)
    (w : World) (st : Store) :
  let '(out, _, st') := transaction svc m w st in
  let '(captured, _, queue) := hook svc m w (sync_queue st) in
  sync_queue st' = queue ∧
  (∀ e, captured = Raise e → out = Raise e ∧ st' = st) ∧
  (out = Returns () →
   entities st' = apply_mutation m (entities st) ∧
   if is_enabled svc
   then ∃ item, sync_queue st' = sync_queue st ++ [item] ∧
                status item = "pending"
   else sync_queue st' = sync_queue st) ∧
  (∀ e, out = Raise e → entities st' = entities st).
Proof.
  unfold domain_transaction.
  destruct (mapper_hook_cases svc m w (sync_queue st))
    as [(w' & -> & Hen)|[(e & w' & -> & Hen)|(w' & item & -> & Hen & Hp & _)]];
    rewrite Hen.
  - destruct (db_commit w') as [[err|] w2]; simpl.
    + repeat split; try done.
    + repeat split; try done.
  - simpl. repeat split; try done. by destruct st.
  - destruct (db_commit w') as [[err|] w2]; simpl.
    + repeat split; try done.
    + repeat split; try done. eauto.
Qed.
End CaptureFacts.

Lemma capture_commits_on_its_own_witness :
  let e := MkEntity "contacts" "42" [("name", "Alice")] in
  let st' :=
    (domain_transaction commit_ok tick_clock svc_on (DoInsert e)
       0%nat (MkStore [] [])).2 in
  entities st' = [e] ∧
  ∃ item, sync_queue st' = [item] ∧ status item = "pending".
Proof.
  intros e st'.
  pose proof (capture_commits_on_its_own commit_ok tick_clock svc_on
                (DoInsert e) 0%nat (MkStore [] [])) as H.
  simpl in H. destruct H as (_ & _ & H & _).
  exact (H eq_refl).
Defined.

(** C7, refuted as stated: when the commit that marks the row as
    [syncing] raises, nothing is committed for that mark, and the handler
    then commits the row as [failed]: the committed status goes from
    [pending] to [failed] without passing through [syncing]. *)
Lemma syncing_mark_can_be_skipped :
  mark_syncing (commit_fails_at 0) (pending_row 1 "update" "7") 0%nat
    [pending_row 1 "update" "7"]
  = (Some "database is locked", 1%nat, [pending_row 1 "update" "7"]) ∧
  process_item stub_succeeds (commit_fails_at 0) tick_clock
    (pending_row 1 "update" "7") no_stats 0%nat [pending_row 1 "update" "7"]
  = (Continue, MkStats 0 1 0, 2%nat,
     [Row 1 "contacts" "7" "update" (Some [("name", "Alice")])
          "failed" 1 (Some "database is locked") 0 None]) ∧
  ¬ status_edge "pending" "failed".
Proof.
  split; [vm_compute; reflexivity|]. split; [vm_compute; reflexivity|].
  intros H. inversion H.
Qed.

(** * Further properties of the engine *)

(** ** What a batch can do to a row *)

Lemma same_record_refl r : same_record r r.
Proof. by repeat split. Qed.

Lemma written_for_same_record item x : written_for item x → same_record item x.
Proof. by intros [->|[[now ->]|[->|[e ->]]]]. Qed.

Lemma evolves_refl r : evolves r r.
Proof. split; [apply same_record_refl|by left]. Qed.

Lemma written_for_evolves item x :
  status item = "pending" → written_for item x → evolves item x.
Proof.
  intros Hp Hw. split; [by apply written_for_same_record|]. right.
  split; [exact Hp|]. by apply written_for_status in Hw.
Qed.

Lemma evolves_pending_item a item b x :
  evolves a b → a = item → status item = "pending" → written_for item x →
  evolves a x.
Proof. intros _ -> Hp Hw. by apply written_for_evolves. Qed.

(** Position by position, a sequence of updates with rows written for
    pending rows of the table makes every row evolve. *)
Lemma rewrites_evolve (tbl : Table) (xs : list row) :
  NoDup (ids tbl) →
  Forall (λ x, ∃ item, item ∈ tbl ∧ status item = "pending" ∧
                       written_for item x) xs →
  Forall2 evolves tbl (foldr update_row tbl xs).
Proof.
  intros Hnd Hxs. induction Hxs as [|x xs (item & Hitem & Hp & Hw) Hxs IH].
  - simpl. apply Forall_Forall2_diag, Forall_forall. intros r _.
    apply evolves_refl.
  - simpl. unfold update_row at 1. apply Forall2_fmap_r.
    apply Forall2_same_length_lookup. split; [by eapply Forall2_length|].
    intros i a b Ha Hb.
    pose proof (Forall2_lookup_lr _ _ _ _ _ _ IH Ha Hb) as Hab.
    unfold compose. case_decide as Hid; [|exact Hab].
    eapply evolves_pending_item; [exact Hab| |exact Hp|exact Hw].
    apply (NoDup_ids_inj tbl); [done|by eapply list_elem_of_lookup_2|done|].
    destruct Hab as [(Hsame & _) _]. rewrite Hsame, Hid.
    by apply written_for_id.
Qed.

Lemma evolves_total (l k : Table) :
  Forall2 evolves l k → total_count l = total_count k.
Proof.
  unfold total_count. induction 1 as [|a b l k [_ Hab] _ IH]; [done|].
  rewrite !count_status_cons.
  destruct Hab as [->|[Ha [Hb|[Hb|Hb]]]]; [lia|..];
    rewrite Ha, Hb; repeat case_decide; try done; lia.
Qed.

Section BatchRows.
Context {World : Type}.
Variable execute : Request → World → Response * World.
Variable db_commit : World → option string * World.
Variable utcnow : World → Z * World.

#[local] Abbreviation batch := (push_pending_changes execute db_commit utcnow).

Lemma batch_evolves svc limit w tbl :
  NoDup (ids tbl) → Forall2 evolves tbl (batch svc limit w tbl).2.
Proof.
  intros Hnd. unfold push_pending_changes.
  destruct (negb (is_enabled svc)); simpl.
  { apply Forall_Forall2_diag, Forall_forall. intros r _. apply evolves_refl. }
  destruct (push_loop execute db_commit utcnow (pending_items limit tbl)
              no_stats w tbl) as [[[fl st'] w'] tbl'] eqn:Hl. simpl.
  apply push_loop_writes in Hl as (xs & Hxs & ->).
  apply rewrites_evolve; [exact Hnd|].
  eapply Forall_impl; [exact Hxs|]. intros x (item & Hitem & Hw).
  apply pending_items_elem in Hitem as [Hitem Hp]. eauto.
Qed.

(** X1.  Whatever the remote service and the local store do, a batch
    neither adds nor removes nor reorders rows, and at every position of
    the table the key, the table name, the record id, the operation, the
    payload and the creation time are those of before; a row that changes
    at all was pending and is now syncing, synced or failed. *)
Theorem batch_never_edits_the_captured_change (svc : SyncService)
    (limit : nat) (w : World) (tbl : Table) :
  NoDup (ids tbl) →
  let tbl' := (batch svc limit w tbl).2 in
  length tbl' = length tbl ∧
  ∀ i r, tbl !! i = Some r →
    ∃ r', tbl' !! i = Some r' ∧
      id r' = id r ∧ table_name r' = table_name r ∧
      record_id r' = record_id r ∧ operation r' = operation r ∧
      data r' = data r ∧ created_at r' = created_at r ∧
      (r' = r ∨
       (status r = "pending" ∧
        (status r' = "syncing" ∨ status r' = "synced" ∨
         status r' = "failed"))).
Proof.
  intros Hnd tbl'. pose proof (batch_evolves svc limit w tbl Hnd) as Hev.
  fold tbl' in Hev. pose proof (Forall2_length _ _ _ Hev) as Hlen.
  split; [done|]. intros i r Hr.
  destruct (tbl' !! i) as [r'|] eqn:Hr'.
  - exists r'. split; [done|].
    destruct (Forall2_lookup_lr _ _ _ _ _ _ Hev Hr Hr')
      as [(H1 & H2 & H3 & H4 & H5 & H6) Hst].
    by repeat split.
  - apply lookup_ge_None in Hr'. apply lookup_lt_Some in Hr. lia.
Qed.

(** X2.  Whatever the outside world does, a batch leaves the [total] that
    [get_queue_status] reports as it was. *)
Theorem batch_keeps_total (svc : SyncService) (limit : nat)
    (w : World) (tbl : Table) :
  NoDup (ids tbl) →
  get_queue_status (batch svc limit w tbl).2 !! "total"
  = get_queue_status tbl !! "total".
Proof.
  intros Hnd. pose proof (batch_evolves svc limit w tbl Hnd) as Hev.
  apply evolves_total in Hev. unfold total_count in Hev.
  unfold get_queue_status. simplify_map_eq. by rewrite Hev.
Qed.
End BatchRows.

(** ** Counting rows by status *)

Lemma count_status_update_row s (tbl : Table) item x :
  NoDup (ids tbl) → item ∈ tbl → id x = id item →
  count_status s (update_row x tbl)
  = count_status s tbl - (if decide (status item = s) then 1 else 0)
    + (if decide (status x = s) then 1 else 0).
Proof.
  intros Hnd Hin Hid. induction tbl as [|r tbl IH].
  - by apply elem_of_nil in Hin.
  - unfold ids in Hnd. rewrite fmap_cons in Hnd.
    apply NoDup_cons in Hnd as [Hr Hnd].
    change (update_row x (r :: tbl))
      with ((if decide (id r = id x) then x else r) :: update_row x tbl).
    rewrite !count_status_cons.
    apply elem_of_cons in Hin as [->|Hin].
    + destruct (decide (id r = id x)) as [_|Hne]; [|by rewrite Hid in Hne].
      rewrite update_row_absent; [lia|]. by rewrite Hid.
    + destruct (decide (id r = id x)) as [Heq|_].
      * exfalso. apply Hr. rewrite Heq, Hid. by apply list_elem_of_fmap_2.
      * rewrite (IH Hnd Hin). lia.
Qed.

Section Counts.
Context {World : Type}.
Variable execute : Request → World → Response * World.
Variable db_commit : World → option string * World.
Variable utcnow : World → Z * World.
Hypothesis commits : reliable db_commit.

#[local] Abbreviation loop := (push_loop execute db_commit utcnow).
#[local] Abbreviation batch := (push_pending_changes execute db_commit utcnow).
#[local] Abbreviation pushed_ok := (push_of execute db_commit).

(** Each iteration moves one row out of [pending], into [synced] when it
    counts a push and into [failed] when it counts a failure. *)
Lemma push_loop_counts items st w tbl fl st' w' tbl' :
  NoDup (ids tbl) → NoDup (ids items) →
  (∀ it, it ∈ items → it ∈ tbl ∧ status it = "pending") →
  loop items st w tbl = (fl, st', w', tbl') →
  count_status "pending" tbl'
    = count_status "pending" tbl - Z.of_nat (length items) ∧
  count_status "syncing" tbl' = count_status "syncing" tbl ∧
  count_status "synced" tbl'
    = count_status "synced" tbl + (pushed st' - pushed st) ∧
  count_status "failed" tbl'
    = count_status "failed" tbl + (failed st' - failed st).
Proof.
  revert st w tbl. induction items as [|item rest IH];
    intros st w tbl Hnd Hndi Hitems.
  - intros [= <- <- <- <-]. simpl. lia.
  - destruct (process_item_reliable execute db_commit utcnow commits
                item st w tbl) as (w1 & Hp).
    simpl. rewrite Hp. clear Hp.
    set (ok := (pushed_ok item w).1).
    set (fin := settled_row item ok (utcnow (pushed_ok item w).2).1).
    destruct (Hitems item (list_elem_of_here _ _)) as [Hin Hpend].
    assert (id fin = id item) as Hid by (unfold fin, settled_row; by destruct ok).
    unfold ids in Hndi. rewrite fmap_cons in Hndi.
    apply NoDup_cons in Hndi as [Hfresh Hndr].
    intros Hl. apply IH in Hl as (H1 & H2 & H3 & H4).
    + rewrite H1, H2, H3, H4.
      rewrite !(count_status_update_row _ tbl item fin Hnd Hin Hid), Hpend.
      unfold fin, settled_row. destruct ok; simpl;
        repeat case_decide; try done; lia.
    + by rewrite ids_update_row.
    + exact Hndr.
    + intros it Hit. destruct (Hitems it (list_elem_of_further _ _ _ Hit))
        as [Hit' Hp']. split; [|exact Hp'].
      apply elem_of_update_row_ne; [|exact Hit']. rewrite Hid.
      intros Heq. apply Hfresh. rewrite <- Heq. by apply list_elem_of_fmap_2.
Qed.

(** When every push has the same outcome, so have the statistics. *)
Lemma push_loop_uniform (b : bool) items st w tbl :
  (∀ it v, it ∈ items → (pushed_ok it v).1 = b) →
  ∃ w' tbl',
    loop items st w tbl
    = (Continue,
       MkStats (pushed st + (if b then Z.of_nat (length items) else 0))
               (failed st + (if b then 0 else Z.of_nat (length items)))
               (skipped st),
       w', tbl').
Proof.
  revert st w tbl. induction items as [|item rest IH]; intros st w tbl Hb.
  - exists w, tbl. simpl. destruct st, b; simpl; by rewrite ?Z.add_0_r.
  - destruct (process_item_reliable execute db_commit utcnow commits
                item st w tbl) as (w1 & Hp).
    simpl. rewrite Hp, (Hb item w (list_elem_of_here _ _)).
    edestruct IH as (w' & tbl' & Hl).
    { intros it v Hit. apply Hb. by apply list_elem_of_further. }
    rewrite Hl. exists w', tbl'. f_equal. f_equal. f_equal.
    destruct b; simpl; f_equal; lia.
Qed.
End Counts.

Section BatchCounts.
Context {World : Type}.
Variable execute : Request → World → Response * World.
Variable db_commit : World → option string * World.
Variable utcnow : World → Z * World.

#[local] Abbreviation loop := (push_loop execute db_commit utcnow).
#[local] Abbreviation batch := (push_pending_changes execute db_commit utcnow).
#[local] Abbreviation pushed_ok := (push_of execute db_commit).

Lemma pending_items_length limit tbl :
  length (pending_items limit tbl)
  = (limit `min` length (with_status "pending" tbl))%nat.
Proof. unfold pending_items. apply length_take. Qed.

Lemma batch_is_loop svc limit w tbl :
  is_enabled svc = true →
  batch svc limit w tbl
  = let '(_, st, w', tbl') := loop (pending_items limit tbl) no_stats w tbl in
    (st, w', tbl').
Proof. intros Hen. unfold push_pending_changes. by rewrite Hen. Qed.

(** X3.  Over a store whose commits go through, a batch moves exactly
    [min limit pending] rows out of [pending], the others stay pending for
    a later call; the rows it moves are counted once each by the returned
    statistics, [pushed] of them arrive in [synced] and [failed] of them in
    [failed], and the number of [syncing] rows is as before. *)
Theorem batch_moves_min_limit_pending (svc : SyncService) (limit : nat)
    (w : World) (tbl : Table) :
  reliable db_commit → is_enabled svc = true → NoDup (ids tbl) →
  let n := Z.of_nat (limit `min` length (with_status "pending" tbl)) in
  let '(st, _, tbl') := batch svc limit w tbl in
  pushed st + failed st = n ∧
  count_status "pending" tbl' = count_status "pending" tbl - n ∧
  count_status "syncing" tbl' = count_status "syncing" tbl ∧
  count_status "synced" tbl' = count_status "synced" tbl + pushed st ∧
  count_status "failed" tbl' = count_status "failed" tbl + failed st.
Proof.
  intros Hrel Hen Hnd n. rewrite (batch_is_loop svc limit w tbl Hen).
  destruct (push_loop_reliable execute db_commit utcnow Hrel
              (pending_items limit tbl) no_stats w tbl)
    as (st & w' & tbl' & Hl & Hsum).
  rewrite Hl.
  pose proof (push_loop_counts execute db_commit utcnow Hrel
                (pending_items limit tbl) no_stats w tbl Continue st w' tbl'
                Hnd (pending_items_NoDup limit tbl Hnd)
                (pending_items_elem limit tbl) Hl) as (H1 & H2 & H3 & H4).
  rewrite pending_items_length in H1, Hsum. fold n in H1, Hsum.
  simpl in *. repeat split; lia.
Qed.

Lemma push_item_accepts item w :
  always_accepts execute → known_operation item →
  (_push_item execute item w).1 = true.
Proof.
  intros Hacc Hop. unfold _push_item.
  repeat case_decide;
    try (match goal with
         | |- context [execute ?q ?v] =>
             destruct (Hacc q v) as [n Hn];
             destruct (execute q v) as [[k|msg] v']; simpl in Hn;
             [injection Hn as ->|discriminate Hn]
         end; simpl; try done; by apply bool_decide_eq_true_2, Nat.lt_0_succ).
  by destruct Hop as [?|[?|?]].
Qed.

Lemma push_item_unreachable item w :
  always_raises execute → (_push_item execute item w).1 = false.
Proof.
  intros Hr. unfold _push_item.
  repeat case_decide;
    try (match goal with
         | |- context [execute ?q ?v] =>
             destruct (Hr q v) as [m Hm];
             destruct (execute q v) as [[k|msg] v']; simpl in Hm;
             [discriminate Hm|]
         end); done.
Qed.

(** A push of a row whose operation is none of the three known ones is
    [False] and does not contact the remote service. *)
Lemma push_item_unknown item w :
  ¬ known_operation item → _push_item execute item w = (false, w).
Proof.
  intros Hop. unfold _push_item, known_operation in *.
  repeat case_decide; tauto.
Qed.

(** X4.  Over a store whose commits go through and against a remote
    service that answers every request with at least one row, a batch on a
    queue whose pending rows carry known operations synchronises every row
    it selects: it returns [pushed = min limit pending], [failed = 0],
    [skipped = 0], and the number of failed rows is as before. *)
Theorem batch_against_accepting_remote (svc : SyncService) (limit : nat)
    (w : World) (tbl : Table) :
  reliable db_commit → always_accepts execute →
  is_enabled svc = true → NoDup (ids tbl) →
  (∀ r, r ∈ tbl → status r = "pending" → known_operation r) →
  let n := Z.of_nat (limit `min` length (with_status "pending" tbl)) in
  let '(st, _, tbl') := batch svc limit w tbl in
  st = MkStats n 0 0 ∧
  count_status "synced" tbl' = count_status "synced" tbl + n ∧
  count_status "failed" tbl' = count_status "failed" tbl ∧
  count_status "pending" tbl' = count_status "pending" tbl - n.
Proof.
  intros Hrel Hacc Hen Hnd Hops n.
  rewrite (batch_is_loop svc limit w tbl Hen).
  destruct (push_loop_uniform execute db_commit utcnow Hrel true
              (pending_items limit tbl) no_stats w tbl)
    as (w' & tbl' & Hl).
  { intros it v Hit. apply pending_items_elem in Hit as [Hit Hp].
    unfold push_of. apply push_item_accepts; [done|].
    by apply (Hops it). }
  rewrite Hl.
  pose proof (push_loop_counts execute db_commit utcnow Hrel
                (pending_items limit tbl) no_stats w tbl _ _ w' tbl'
                Hnd (pending_items_NoDup limit tbl Hnd)
                (pending_items_elem limit tbl) Hl) as (H1 & H2 & H3 & H4).
  rewrite pending_items_length in *. fold n in H1, H3, H4 |- *.
  simpl in *. split; [f_equal; lia|]. repeat split; lia.
Qed.

(** X5.  Over a store whose commits go through, when the remote service
    cannot be reached at all the batch does not stop early: every selected
    row fails on its own, [failed = min limit pending], [pushed = 0], and
    each selected row is left [failed] with one more retry and with the
    error message it had. *)
Theorem batch_against_unreachable_remote (svc : SyncService) (limit : nat)
    (w : World) (tbl : Table) :
  reliable db_commit → always_raises execute →
  is_enabled svc = true → NoDup (ids tbl) →
  let n := Z.of_nat (limit `min` length (with_status "pending" tbl)) in
  let '(st, _, tbl') := batch svc limit w tbl in
  st = MkStats 0 n 0 ∧
  count_status "failed" tbl' = count_status "failed" tbl + n ∧
  count_status "synced" tbl' = count_status "synced" tbl ∧
  ∀ item, item ∈ pending_items limit tbl →
    set_retry_count (retry_count item + 1) (set_status "failed" item) ∈ tbl'.
Proof.
  intros Hrel Hunreach Hen Hnd n.
  pose proof (batch_is_loop svc limit w tbl Hen) as Hb.
  destruct (push_loop_uniform execute db_commit utcnow Hrel false
              (pending_items limit tbl) no_stats w tbl)
    as (w' & tbl' & Hl).
  { intros it v Hit. unfold push_of. by apply push_item_unreachable. }
  rewrite Hl in Hb. rewrite Hb.
  pose proof (push_loop_counts execute db_commit utcnow Hrel
                (pending_items limit tbl) no_stats w tbl _ _ w' tbl'
                Hnd (pending_items_NoDup limit tbl Hnd)
                (pending_items_elem limit tbl) Hl) as (H1 & H2 & H3 & H4).
  rewrite pending_items_length in *. fold n in H1, H3, H4 |- *.
  simpl in *. split; [f_equal; lia|]. split; [lia|]. split; [lia|].
  intros item Hitem. apply list_elem_of_split in Hitem as (pre & post & Hsel).
  destruct (batch_settles execute db_commit utcnow svc limit w tbl
              pre item post Hrel Hen Hnd Hsel)
    as (st1 & w1 & tbl1 & st2 & w2 & tbl2 & _ & Hb2 & Hin & _).
  rewrite Hb in Hb2. injection Hb2 as _ _ <-.
  unfold push_of in Hin. rewrite push_item_unreachable in Hin by done.
  exact Hin.
Qed.

(** X6.  Over a store whose commits go through, a selected row whose
    operation is none of [create], [update], [delete] is left [failed]
    with one more retry, whatever the remote service would have
    answered. *)
Theorem unknown_operation_fails (svc : SyncService) (limit : nat)
    (w : World) (tbl : Table) (item : row) :
  reliable db_commit → is_enabled svc = true → NoDup (ids tbl) →
  item ∈ pending_items limit tbl → ¬ known_operation item →
  set_retry_count (retry_count item + 1) (set_status "failed" item)
    ∈ (batch svc limit w tbl).2.
Proof.
  intros Hrel Hen Hnd Hitem Hop.
  apply list_elem_of_split in Hitem as (pre & post & Hsel).
  destruct (batch_settles execute db_commit utcnow svc limit w tbl
              pre item post Hrel Hen Hnd Hsel)
    as (st1 & w1 & tbl1 & st2 & w2 & tbl2 & _ & Hb & Hin & _).
  rewrite Hb. simpl. unfold push_of in Hin.
  rewrite push_item_unknown in Hin by done. exact Hin.
Qed.
End BatchCounts.

(** ** The sweep of old synced rows *)

Lemma is_stale_swept cutoff r : is_stale cutoff r = true ↔ swept cutoff r.
Proof.
  unfold is_stale, swept. rewrite andb_true_iff, bool_decide_eq_true.
  destruct (synced_at r) as [t|]; split.
  - intros [Hs Ht]. apply bool_decide_eq_true in Ht. eauto.
  - intros [Hs (t' & [= <-] & Ht)]. split; [done|].
    by apply bool_decide_eq_true.
  - intros [_ [=]].
  - intros [_ (t' & [=] & _)].
Qed.

Lemma kept_rows_cons cutoff r (tbl : Table) :
  kept_rows cutoff (r :: tbl)
  = if is_stale cutoff r then kept_rows cutoff tbl
    else r :: kept_rows cutoff tbl.
Proof.
  unfold kept_rows. rewrite (filter_cons (λ r, is_stale cutoff r ≠ true)).
  destruct (is_stale cutoff r); by case_decide.
Qed.

Lemma gone_count_cons cutoff r (tbl : Table) :
  gone_count cutoff (r :: tbl)
  = (if is_stale cutoff r then 1 else 0) + gone_count cutoff tbl.
Proof.
  unfold gone_count. rewrite (filter_cons (λ r, is_stale cutoff r = true)).
  destruct (is_stale cutoff r); case_decide; try done.
  simpl length. rewrite Nat2Z.inj_succ. unfold Z.succ. apply Z.add_comm.
Qed.

Lemma sweep_counts cutoff (tbl : Table) :
  Z.of_nat (length (kept_rows cutoff tbl))
    = Z.of_nat (length tbl) - gone_count cutoff tbl ∧
  ∀ s, count_status s (kept_rows cutoff tbl)
       = count_status s tbl
         - (if decide (s = "synced") then gone_count cutoff tbl else 0).
Proof.
  induction tbl as [|r tbl [IHl IHc]].
  { split; [done|]. intros s. by case_decide. }
  rewrite kept_rows_cons, gone_count_cons.
  destruct (is_stale cutoff r) eqn:Hst.
  - apply is_stale_swept in Hst as [Hs _].
    split; [simpl length; lia|]. intros s. rewrite count_status_cons, IHc, Hs.
    repeat case_decide; subst; try done; lia.
  - split; [simpl length; lia|]. intros s. rewrite !count_status_cons, IHc.
    repeat case_decide; lia.
Qed.

Section Sweep.
Context {World : Type}.
Variable db_commit : World → option string * World.
Variable utcnow : World → Z * World.

(** X7.  [clear_synced_items] deletes exactly the rows that are [synced]
    with a [synced_at] earlier than the cutoff (now minus the given number
    of days); rows that are pending, syncing or failed, and synced rows
    without a timestamp, always stay.  The number it returns is the number
    of rows deleted, the counts of the other statuses do not change, and
    when the commit raises nothing is deleted and it returns 0. *)
Theorem sweep_deletes_only_old_synced_rows (days : Z) (w : World)
    (tbl : Table) :
  let cutoff := (utcnow w).1 - days * 86400 in
  let '(deleted, _, tbl') := clear_synced_items db_commit utcnow days w tbl in
  ((db_commit (utcnow w).2).1 = None →
   (∀ r, r ∈ tbl' ↔ r ∈ tbl ∧ ¬ swept cutoff r) ∧
   tbl' `sublist_of` tbl ∧
   deleted = Z.of_nat (length tbl) - Z.of_nat (length tbl') ∧
   count_status "pending" tbl' = count_status "pending" tbl ∧
   count_status "syncing" tbl' = count_status "syncing" tbl ∧
   count_status "failed" tbl' = count_status "failed" tbl ∧
   count_status "synced" tbl' = count_status "synced" tbl - deleted) ∧
  ((db_commit (utcnow w).2).1 ≠ None → deleted = 0 ∧ tbl' = tbl).
Proof.
  intros cutoff. unfold clear_synced_items.
  destruct (utcnow w) as [now w1] eqn:Hn. simpl in cutoff. cbn [fst snd].
  destruct (db_commit w1) as [[e|] w2] eqn:Hc; cbn [fst snd].
  - split; [by intros [=]|done].
  - split; [|by intros []]. intros _.
    change (filter (λ r, is_stale (now - days * 86400) r ≠ true) tbl)
      with (kept_rows cutoff tbl).
    change (Z.of_nat (length (filter (λ r, is_stale (now - days * 86400) r = true)
                                tbl)))
      with (gone_count cutoff tbl).
    destruct (sweep_counts cutoff tbl) as [Hlen Hcount].
    split; [|split; [apply sublist_filter|]].
    + intros r. unfold kept_rows.
      rewrite list_elem_of_filter, <- is_stale_swept. tauto.
    + rewrite !Hcount. repeat case_decide; try done. repeat split; lia.
Qed.
End Sweep.

(** ** Queues that only the engine has written *)
Section EngineBuilt.
Context {World : Type}.
Variable execute : Request → World → Response * World.
Variable db_commit : World → option string * World.
Variable utcnow : World → Z * World.

#[local] Abbreviation batch := (push_pending_changes execute db_commit utcnow).
#[local] Abbreviation op := (run_op execute db_commit utcnow).
#[local] Abbreviation ops := (run_ops execute db_commit utcnow).

Lemma run_op_ascending o w tbl :
  StronglySorted Z.lt (ids tbl) → StronglySorted Z.lt (ids (op o w tbl).2).
Proof.
  intros Hs. destruct o as [svc t r o d|svc limit|days|]; simpl.
  - unfold add_to_queue. destruct (negb (is_enabled svc)); [done|].
    destruct (utcnow w) as [now w1]. destruct (db_commit w1) as [[e|] w2];
      [done|]. simpl. unfold ids. rewrite fmap_app. simpl.
    apply StronglySorted_app_2; [|exact Hs|repeat constructor].
    intros x1 x2 Hx1 Hx2. apply list_elem_of_singleton in Hx2 as ->.
    apply list_elem_of_fmap in Hx1 as (r1 & -> & Hr1).
    by apply next_id_above.
  - destruct (batch svc limit w tbl) as [[st w'] tbl'] eqn:Hb. simpl.
    pose proof (batch_table execute db_commit utcnow svc limit w tbl)
      as [Hids _].
    rewrite Hb in Hids. simpl in Hids. by rewrite Hids.
  - unfold clear_synced_items. destruct (utcnow w) as [now w1].
    destruct (db_commit w1) as [[e|] w2]; [done|]. simpl.
    eapply StronglySorted_sublist; [|exact Hs]. unfold ids.
    apply fmap_sublist, sublist_filter.
  - done.
Qed.

Lemma written_for_engine_row item x :
  engine_row item → status item = "pending" → written_for item x →
  engine_row x.
Proof.
  intros [(_ & Hrc & He & Hs)|[(Hst & _)|[(Hst & _)|(Hst & _)]]] Hp;
    try (rewrite Hp in Hst; discriminate Hst).
  unfold engine_row.
  intros [->|[[now ->]|[->|[e ->]]]]; simpl; rewrite ?Hrc.
  - right; left. done.
  - right; right; left. done.
  - right; right; right. done.
  - right; right; right. done.
Qed.

Lemma run_op_engine_rows o w tbl :
  Forall engine_row tbl → Forall engine_row (op o w tbl).2.
Proof.
  intros Hinv. destruct o as [svc t r o d|svc limit|days|]; simpl.
  - unfold add_to_queue. destruct (negb (is_enabled svc)); [done|].
    destruct (utcnow w) as [now w1]. destruct (db_commit w1) as [[e|] w2];
      [done|]. simpl. apply Forall_app. split; [done|].
    apply Forall_singleton. left. done.
  - destruct (batch svc limit w tbl) as [[st w'] tbl'] eqn:Hb. simpl.
    pose proof (batch_table execute db_commit utcnow svc limit w tbl)
      as (_ & _ & Hrows).
    rewrite Hb in Hrows. simpl in Hrows. apply Forall_forall. intros x Hx.
    rewrite Forall_forall in Hinv.
    destruct (Hrows x Hx) as [Hold|(item & Hitem & Hw)]; [by apply Hinv|].
    apply pending_items_elem in Hitem as [Hitem Hpend].
    eapply written_for_engine_row; [|exact Hpend|exact Hw]. by apply Hinv.
  - unfold clear_synced_items. destruct (utcnow w) as [now w1].
    destruct (db_commit w1) as [[e|] w2]; [done|]. simpl.
    apply Forall_forall. intros x Hx.
    apply list_elem_of_filter in Hx as [_ Hx].
    rewrite Forall_forall in Hinv. by apply Hinv.
  - done.
Qed.

Lemma run_ops_ascending os w tbl :
  StronglySorted Z.lt (ids tbl) → StronglySorted Z.lt (ids (ops os w tbl).2).
Proof.
  revert w tbl. induction os as [|o os IH]; intros w tbl Hs; [done|].
  simpl. pose proof (run_op_ascending o w tbl Hs) as Hs'.
  destruct (op o w tbl) as [w' tbl']. by apply IH.
Qed.

Lemma run_ops_engine_rows os w tbl :
  Forall engine_row tbl → Forall engine_row (ops os w tbl).2.
Proof.
  revert w tbl. induction os as [|o os IH]; intros w tbl Hs; [done|].
  simpl. pose proof (run_op_engine_rows o w tbl Hs) as Hs'.
  destruct (op o w tbl) as [w' tbl']. by apply IH.
Qed.

(** The oldest pending rows are selected when the scan is by ascending
    key. *)
Lemma ascending_selection limit (tbl : Table) :
  StronglySorted Z.lt (ids tbl) →
  StronglySorted Z.lt (ids (pending_items limit tbl)) ∧
  ∀ r x, r ∈ tbl → status r = "pending" →
         x ∈ pending_items limit tbl → id r < id x →
         r ∈ pending_items limit tbl.
Proof.
  intros Hs. split.
  - eapply StronglySorted_sublist; [|exact Hs].
    unfold ids. apply fmap_sublist, pending_items_sublist.
  - intros r x Hr Hp Hx Hlt. unfold pending_items in *.
    assert (StronglySorted Z.lt (ids (with_status "pending" tbl))) as Hs'.
    { eapply StronglySorted_sublist; [|exact Hs].
      unfold ids. apply fmap_sublist, sublist_filter. }
    assert (r ∈ with_status "pending" tbl) as Hr'
      by by apply list_elem_of_filter.
    rewrite <- (take_drop limit (with_status "pending" tbl)) in Hr', Hs'.
    apply elem_of_app in Hr' as [Hr'|Hr']; [done|].
    unfold ids in Hs'. rewrite fmap_app in Hs'.
    assert (id x < id r); [|lia].
    eapply StronglySorted_app_1_elem_of; [exact Hs'| |];
      by apply list_elem_of_fmap_2.
Qed.

(** X8.  Starting from the empty queue, whatever captures, batches, sweeps
    and status calls the engine runs and whatever the outside world does,
    the keys of the queue are strictly ascending in scan order (hence
    unique), and every batch selects the pending rows with the smallest
    keys, oldest first, never skipping a pending row with a smaller key. *)
Theorem engine_built_queue_is_processed_oldest_first (os : list Op)
    (w : World) (limit : nat) :
  let tbl := (ops os w []).2 in
  StronglySorted Z.lt (ids tbl) ∧ NoDup (ids tbl) ∧
  StronglySorted Z.lt (ids (pending_items limit tbl)) ∧
  ∀ r x, r ∈ tbl → status r = "pending" →
         x ∈ pending_items limit tbl → id r < id x →
         r ∈ pending_items limit tbl.
Proof.
  intros tbl.
  assert (StronglySorted Z.lt (ids tbl)) as Hs
    by (apply run_ops_ascending; constructor).
  split; [exact Hs|]. split.
  - apply run_ops_NoDup. constructor.
  - by apply ascending_selection.
Qed.

(** X9.  On a queue that only the engine has written, every row is
    pending, syncing, synced or failed; its retry count is 1 when it is
    failed and 0 otherwise, so it never exceeds 1; [synced_at] is set
    exactly on the synced rows; and an error message is found on failed
    rows only. *)
Theorem engine_built_rows_are_well_formed (os : list Op) (w : World)
    (r : row) :
  r ∈ (ops os w []).2 →
  (status r = "pending" ∨ status r = "syncing" ∨
   status r = "synced" ∨ status r = "failed") ∧
  retry_count r = (if decide (status r = "failed") then 1 else 0) ∧
  (synced_at r ≠ None ↔ status r = "synced") ∧
  (error_message r ≠ None → status r = "failed").
Proof.
  intros Hr.
  assert (Forall engine_row (ops os w []).2) as Hall
    by (apply run_ops_engine_rows; constructor).
  rewrite Forall_forall in Hall. specialize (Hall r Hr).
  destruct Hall as [(Hst & Hrc & He & Hs)|[(Hst & Hrc & He & Hs)|
                   [(Hst & Hrc & He & Hs)|(Hst & Hrc & Hs)]]];
    rewrite Hst, Hrc; repeat split; try tauto; try done;
    try (by rewrite ?Hs, ?He); try (by intros; rewrite ?Hs in *).
Qed.
End EngineBuilt.

(** ** Capture *)
Section CaptureMore.
Context {World : Type}.
Variable db_commit : World → option string * World.
Variable utcnow : World → Z * World.

(** X10.  [add_to_queue] has three outcomes.  With sync disabled it
    returns [None] and touches nothing.  When its commit goes through it
    appends one row at the end of the queue: pending, with no retries, no
    error and no [synced_at], with the arguments as given and a key larger
    than every key in the queue, so that unique keys stay unique.  When
    its commit raises, the exception is re-raised and the queue is as
    before. *)
Theorem add_to_queue_outcomes (svc : SyncService)
    (t rid o : string) (d : option Payload) (w : World) (tbl : Table) :
  match add_to_queue db_commit utcnow svc t rid o d w tbl with
  | (Returns None, w', tbl') =>
      is_enabled svc = false ∧ w' = w ∧ tbl' = tbl
  | (Returns (Some item), _, tbl') =>
      is_enabled svc = true ∧ tbl' = tbl ++ [item] ∧
      item = Row (next_id tbl) t rid o d "pending" 0 None (utcnow w).1 None ∧
      (∀ r, r ∈ tbl → id r < id item) ∧
      (NoDup (ids tbl) → NoDup (ids tbl'))
  | (Raise e, _, tbl') =>
      is_enabled svc = true ∧ tbl' = tbl ∧
      (db_commit (utcnow w).2).1 = Some e
  end.
Proof.
  unfold add_to_queue. destruct (is_enabled svc) eqn:Hen; simpl; [|done].
  destruct (utcnow w) as [now w1]. simpl.
  destruct (db_commit w1) as [[e|] w2]; simpl; [done|].
  split; [done|]. split; [done|]. split; [done|]. split.
  - intros r Hr. simpl. by apply next_id_above.
  - intros Hnd. unfold ids. rewrite fmap_app. simpl.
    apply NoDup_app. split; [exact Hnd|]. split; [|apply NoDup_singleton].
    intros i Hi Hi'. apply list_elem_of_singleton in Hi'. subst i.
    by apply (next_id_fresh tbl).
Qed.

(** X11.  The mapper hooks record the mutation they are called for: when
    sync is enabled and the commit of the queue goes through, the hook of
    an insert, update or delete appends one pending row that names the
    table and the id of the entity, carries the operation [create],
    [update] or [delete], and holds the dictionary of the entity as
    payload, except for a delete, whose payload is [None]. With sync
    disabled the hook does nothing. *)
Theorem mapper_hook_records_the_mutation (svc : SyncService) (m : Mutation)
    (w : World) (tbl : Table) :
  (is_enabled svc = false →
   mapper_hook db_commit utcnow svc m w tbl = (Returns (), w, tbl)) ∧
  (is_enabled svc = true → (db_commit (utcnow w).2).1 = None →
   mapper_hook db_commit utcnow svc m w tbl
   = (Returns (), (db_commit (utcnow w).2).2,
      tbl ++ [Row (next_id tbl) (entity_table (entity_of m))
                  (entity_id (entity_of m)) (op_of m) (snapshot_of m)
                  "pending" 0 None (utcnow w).1 None])).
Proof.
  split.
  - intros Hen. destruct m; simpl; unfold add_to_sync_queue; by rewrite Hen.
  - intros Hen Hc. destruct (utcnow w) as [now w1] eqn:Hn. simpl in Hc.
    destruct (db_commit w1) as [[e|] w2] eqn:Hc'; [discriminate Hc|].
    destruct m as [e|e|e]; simpl; unfold add_to_sync_queue, add_to_queue;
      rewrite Hen; simpl; rewrite Hn; simpl; by rewrite Hc'.
Qed.
End CaptureMore.

(** ** A service that is not enabled *)
Section Disabled.
Context {World : Type}.
Variable execute : Request → World → Response * World.
Variable db_commit : World → option string * World.
Variable utcnow : World → Z * World.

(** X12.  With sync disabled, neither captures nor batches nor calls of
    [sync] (forced or not) change the queue or reach the outside world:
    any sequence of captures, batches and status calls leaves queue and
    world as they were, and [sync] emits no status. *)
Theorem disabled_engine_does_nothing (os : list Op) (force : bool)
    (m : SyncManager) (w : World) (tbl : Table) :
  (Forall without_service os →
   run_ops execute db_commit utcnow os w tbl = (w, tbl)) ∧
  (is_enabled (sync_service m) = false →
   sync execute db_commit utcnow force m w tbl = (m, None, w, tbl)).
Proof.
  split.
  - induction 1 as [|o os Ho _ IH]; [done|]. simpl.
    destruct o as [svc t r o d|svc limit|days|]; simpl in Ho |- *.
    + unfold add_to_queue. by rewrite Ho.
    + unfold push_pending_changes. by rewrite Ho.
    + done.
    + done.
  - intros Hen. unfold sync, sync_enter. by rewrite Hen.
Qed.
End Disabled.

(** ** The status that a sync emits, and what the window makes of it *)
Section Emitted.
Context {World : Type}.
Variable execute : Request → World → Response * World.
Variable db_commit : World → option string * World.
Variable utcnow : World → Z * World.

#[local] Abbreviation batch := (push_pending_changes execute db_commit utcnow).

Lemma sync_runs force m w tbl m' status w' tbl' :
  sync execute db_commit utcnow force m w tbl = (m', Some status, w', tbl') →
  m' = set_is_syncing false m ∧
  tbl' = (batch (sync_service m) 100 w tbl).2 ∧
  w' = (batch (sync_service m) 100 w tbl).1.2 ∧
  status = stats_dict (batch (sync_service m) 100 w tbl).1.1
           ∪ get_queue_status tbl'.
Proof.
  unfold sync, sync_enter, sync_body.
  destruct (negb (is_enabled (sync_service m))); [by intros [=]|].
  destruct (is_syncing m && negb force); [by intros [=]|].
  simpl. destruct (batch (sync_service m) 100 w tbl) as [[st v] t].
  by intros [= <- <- <- <-].
Qed.

(** X13.  The dictionary that a completed [sync] emits holds the counts of
    the queue after the batch under [pending], [syncing], [synced] and
    [total], and the statistics of the batch under [pushed] and [skipped];
    its [failed] entry is the number of failures of this batch, which
    replaces the number of failed rows, and it has no [enabled] entry.
    The manager is left with [is_syncing] cleared. *)
Theorem sync_emits_batch_statistics_over_counts (force : bool)
    (m : SyncManager) (w : World) (tbl : Table)
    (m' : SyncManager) (status : gmap string Value) (w' : World)
    (tbl' : Table) :
  sync execute db_commit utcnow force m w tbl = (m', Some status, w', tbl') →
  let st := (batch (sync_service m) 100 w tbl).1.1 in
  tbl' = (batch (sync_service m) 100 w tbl).2 ∧
  is_syncing m' = false ∧
  status !! "pending" = Some (VInt (count_status "pending" tbl')) ∧
  status !! "syncing" = Some (VInt (count_status "syncing" tbl')) ∧
  status !! "synced" = Some (VInt (count_status "synced" tbl')) ∧
  status !! "total" = Some (VInt (total_count tbl')) ∧
  status !! "failed" = Some (VInt (failed st)) ∧
  status !! "pushed" = Some (VInt (pushed st)) ∧
  status !! "skipped" = Some (VInt 0) ∧
  status !! "enabled" = None.
Proof.
  intros Hs st. apply sync_runs in Hs as (-> & Htbl & _ & ->).
  split; [exact Htbl|]. split; [done|].
  pose proof (skipped_zero :=
    push_loop_skipped execute db_commit utcnow).
  assert (skipped st = 0) as Hsk.
  { unfold st, push_pending_changes.
    destruct (negb (is_enabled (sync_service m))); [done|].
    destruct (push_loop execute db_commit utcnow
                (pending_items 100 tbl) no_stats w tbl)
      as [[[fl s1] w1] t1] eqn:Hl.
    by apply skipped_zero in Hl. }
  fold st. unfold stats_dict, get_queue_status, total_count. rewrite Hsk.
  repeat split; rewrite lookup_union; by simplify_map_eq.
Qed.

(** X14.  The slot that the main window connects to [sync_status_changed]
    shows a message only when the dictionary has a true [enabled] entry;
    the dictionaries that [sync] emits have none, so after a sync the
    status bar shows neither "pending changes" nor "All changes
    synced". *)
Theorem status_bar_ignores_emitted_status (force : bool)
    (m : SyncManager) (w : World) (tbl : Table)
    (m' : SyncManager) (status : gmap string Value) (w' : World)
    (tbl' : Table) :
  sync execute db_commit utcnow force m w tbl = (m', Some status, w', tbl') →
  on_sync_status_changed status = None.
Proof.
  intros Hs. apply sync_runs in Hs as (_ & _ & _ & ->).
  unfold on_sync_status_changed, stats_dict, get_queue_status.
  rewrite lookup_union. by simplify_map_eq.
Qed.
End Emitted.

(** X15.  The status dialog shows what [get_status] returns: with sync
    enabled, the numbers of pending, syncing, failed and synced rows of
    the queue; with sync disabled, the notice that sync is disabled. *)
Theorem status_dialog_shows_queue_counts (m : SyncManager) (tbl : Table) :
  show_sync_status (get_status m tbl)
  = if is_enabled (sync_service m)
    then SyncStatusText (VInt (count_status "pending" tbl))
                        (VInt (count_status "syncing" tbl))
                        (VInt (count_status "failed" tbl))
                        (VInt (count_status "synced" tbl))
    else SyncDisabledNotice.
Proof.
  unfold show_sync_status, get_status, get_queue_status.
  destruct (is_enabled (sync_service m)); simpl; by simplify_map_eq.
Qed.

(** ** Construction *)

(** X16.  A service built by [SyncService.__init__] is enabled exactly
    when sync is switched on in the configuration, the [supabase] package
    is available, the URL and the key are both non-empty, and
    [create_client] returns a client; the periodic timer of a manager
    built on it is armed exactly when, in addition, [SYNC_AUTO] is set. *)
Theorem service_enabled_iff_fully_configured (cfg : Config)
    (SUPABASE_AVAILABLE : bool)
    (create_client : string → string → Outcome Client) :
  let configured :=
    SYNC_ENABLED cfg = true ∧ SUPABASE_AVAILABLE = true ∧
    SUPABASE_URL cfg ≠ "" ∧ SUPABASE_KEY cfg ≠ "" ∧
    ∃ c, create_client (SUPABASE_URL cfg) (SUPABASE_KEY cfg) = Returns c in
  (is_enabled (SyncService_init cfg SUPABASE_AVAILABLE create_client) = true
   ↔ configured) ∧
  (timer (SyncManager_init cfg SUPABASE_AVAILABLE create_client) = true
   ↔ SYNC_AUTO cfg = true ∧ configured).
Proof.
  intros configured.
  assert (is_enabled (SyncService_init cfg SUPABASE_AVAILABLE create_client)
          = true ↔ configured) as Hiff.
  { unfold configured, SyncService_init, is_enabled, str_truthy.
    destruct (SYNC_ENABLED cfg), SUPABASE_AVAILABLE; simpl;
      try (split; [done|by intros (? & ? & _)]).
    destruct (decide (SUPABASE_URL cfg = "")) as [Hu|Hu].
    { rewrite bool_decide_false by (by intros []). simpl.
      split; [done|]. by intros (_ & _ & ? & _). }
    rewrite bool_decide_true by done. simpl.
    destruct (decide (SUPABASE_KEY cfg = "")) as [Hk|Hk].
    { rewrite bool_decide_false by (by intros []). simpl.
      split; [done|]. by intros (_ & _ & _ & ? & _). }
    rewrite bool_decide_true by done.
    destruct (create_client (SUPABASE_URL cfg) (SUPABASE_KEY cfg)) as [c|e];
      simpl.
    - split; [|done]. intros _. repeat split; eauto.
    - split; [done|]. by intros (_ & _ & _ & _ & c & [=]). }
  split; [exact Hiff|].
  unfold SyncManager_init, new_manager. simpl.
  rewrite andb_true_iff, Hiff. done.
Qed.

(** ** The further properties on concrete queues *)

Lemma stub_succeeds_accepts : always_accepts stub_succeeds.
Proof. intros q n. by exists 0%nat. Qed.

Lemma stub_times_out_raises : always_raises stub_times_out.
Proof. intros q n. by exists "timeout". Qed.

Lemma three_pending_known r :
  r ∈ three_pending → status r = "pending" → known_operation r.
Proof.
  unfold three_pending, known_operation. intros Hr _.
  repeat (apply elem_of_cons in Hr as [->|Hr]; [simpl; tauto|]).
  by apply elem_of_nil in Hr.
Qed.

Lemma with_upsert_NoDup : NoDup (ids with_upsert).
Proof. apply (bool_decide_unpack _). vm_compute. exact I. Qed.

Lemma batch_never_edits_the_captured_change_witness :
  length (push_pending_changes stub_times_out (commit_fails_at 3) tick_clock
            svc_on 2 0%nat three_pending).2 = length three_pending.
Proof.
  exact (proj1 (batch_never_edits_the_captured_change stub_times_out
                  (commit_fails_at 3) tick_clock svc_on 2 0%nat three_pending
                  three_pending_NoDup)).
Defined.

Lemma batch_keeps_total_witness :
  get_queue_status
    (push_pending_changes stub_times_out (commit_fails_at 3) tick_clock
       svc_on 2 0%nat three_pending).2 !! "total"
  = get_queue_status three_pending !! "total".
Proof.
  exact (batch_keeps_total stub_times_out (commit_fails_at 3) tick_clock
           svc_on 2 0%nat three_pending three_pending_NoDup).
Defined.

Lemma batch_moves_min_limit_pending_witness :
  let '(st, _, tbl') :=
    push_pending_changes stub_rejects commit_ok tick_clock svc_on 2
      0%nat three_pending in
  pushed st + failed st = 2 ∧
  count_status "pending" tbl' = count_status "pending" three_pending - 2.
Proof.
  pose proof (batch_moves_min_limit_pending stub_rejects commit_ok tick_clock
                svc_on 2 0%nat three_pending
                commit_ok_reliable eq_refl three_pending_NoDup) as H.
  cbv zeta in H.
  destruct (push_pending_changes stub_rejects commit_ok tick_clock svc_on 2
              0%nat three_pending) as [[st v] tbl'].
  destruct H as (H1 & H2 & _). split; [exact H1|exact H2].
Defined.

Lemma batch_against_accepting_remote_witness :
  let '(st, _, _) :=
    push_pending_changes stub_succeeds commit_ok tick_clock svc_on 5
      0%nat three_pending in
  st = MkStats 3 0 0.
Proof.
  pose proof (batch_against_accepting_remote stub_succeeds commit_ok
                tick_clock svc_on 5 0%nat three_pending
                commit_ok_reliable stub_succeeds_accepts eq_refl
                three_pending_NoDup three_pending_known) as H.
  cbv zeta in H.
  destruct (push_pending_changes stub_succeeds commit_ok tick_clock svc_on 5
              0%nat three_pending) as [[st v] tbl'].
  exact (proj1 H).
Defined.

Lemma batch_against_unreachable_remote_witness :
  let '(st, _, _) :=
    push_pending_changes stub_times_out commit_ok tick_clock svc_on 5
      0%nat three_pending in
  st = MkStats 0 3 0.
Proof.
  pose proof (batch_against_unreachable_remote stub_times_out commit_ok
                tick_clock svc_on 5 0%nat three_pending
                commit_ok_reliable stub_times_out_raises eq_refl
                three_pending_NoDup) as H.
  cbv zeta in H.
  destruct (push_pending_changes stub_times_out commit_ok tick_clock svc_on 5
              0%nat three_pending) as [[st v] tbl'].
  exact (proj1 H).
Defined.

Lemma unknown_operation_fails_witness :
  set_retry_count 1 (set_status "failed" (pending_row 2 "upsert" "7"))
    ∈ (push_pending_changes stub_succeeds commit_ok tick_clock svc_on 5
         0%nat with_upsert).2.
Proof.
  assert (pending_row 2 "upsert" "7" ∈ pending_items 5 with_upsert) as Hin.
  { change (pending_items 5 with_upsert) with with_upsert.
    unfold with_upsert. apply list_elem_of_further, list_elem_of_here. }
  assert (¬ known_operation (pending_row 2 "upsert" "7")) as Hop.
  { unfold known_operation. simpl. by intros [?|[?|?]]. }
  exact (unknown_operation_fails stub_succeeds commit_ok tick_clock
           svc_on 5 0%nat with_upsert (pending_row 2 "upsert" "7")
           commit_ok_reliable eq_refl with_upsert_NoDup Hin Hop).
Defined.

Lemma sweep_deletes_only_old_synced_rows_witness :
  let '(deleted, _, tbl') :=
    clear_synced_items commit_ok late_clock 7 0%nat to_sweep in
  deleted = Z.of_nat (length to_sweep) - Z.of_nat (length tbl') ∧
  count_status "pending" tbl' = count_status "pending" to_sweep.
Proof.
  pose proof (sweep_deletes_only_old_synced_rows commit_ok late_clock 7
                0%nat to_sweep) as H.
  cbv zeta in H.
  destruct (clear_synced_items commit_ok late_clock 7 0%nat to_sweep)
    as [[deleted v] tbl'].
  destruct (proj1 H eq_refl) as (_ & _ & H1 & H2 & _).
  split; [exact H1|exact H2].
Defined.

Lemma engine_built_rows_are_well_formed_witness :
  let ops :=
    [Capture svc_on "contacts" "7" "update" None; PushBatch svc_on 10] in
  let r := Row 1 "contacts" "7" "update" None "failed" 1 None 0 None in
  r ∈ (run_ops stub_rejects commit_ok tick_clock ops 0%nat []).2 ∧
  retry_count r = (if decide (status r = "failed") then 1 else 0).
Proof.
  intros ops r.
  assert (r ∈ (run_ops stub_rejects commit_ok tick_clock ops 0%nat []).2)
    as Hr by apply list_elem_of_here.
  split; [exact Hr|].
  exact (proj1 (proj2 (engine_built_rows_are_well_formed stub_rejects
                         commit_ok tick_clock ops 0%nat r Hr))).
Defined.

Lemma mapper_hook_records_the_mutation_witness :
  mapper_hook commit_ok tick_clock svc_on
    (DoDelete (MkEntity "contacts" "42" [("name", "Alice")])) 0%nat []
  = (Returns (), 2%nat,
     [Row 1 "contacts" "42" "delete" None "pending" 0 None 0 None]).
Proof.
  exact (proj2 (mapper_hook_records_the_mutation commit_ok tick_clock svc_on
                  (DoDelete (MkEntity "contacts" "42" [("name", "Alice")]))
                  0%nat []) eq_refl eq_refl).
Defined.

Lemma disabled_engine_does_nothing_witness :
  run_ops stub_succeeds commit_ok tick_clock
    [Capture svc_off "contacts" "7" "create" None; PushBatch svc_off 10;
     QueueStatus] 0%nat three_pending
  = (0%nat, three_pending).
Proof.
  assert (Forall without_service
            [Capture svc_off "contacts" "7" "create" None;
             PushBatch svc_off 10; QueueStatus]) as Hall.
  { repeat constructor. }
  exact (proj1 (disabled_engine_does_nothing stub_succeeds commit_ok
                  tick_clock _ false (new_manager true svc_off)
                  0%nat three_pending) Hall).
Defined.

Lemma sync_emits_batch_statistics_over_counts_witness :
  ∃ status,
    (sync stub_times_out commit_ok tick_clock false (new_manager true svc_on)
       0%nat three_pending).1.1.2 = Some status ∧
    status !! "failed" = Some (VInt 3) ∧ status !! "enabled" = None.
Proof.
  destruct (sync stub_times_out commit_ok tick_clock false
              (new_manager true svc_on) 0%nat three_pending)
    as [[[m' [status|]] w'] tbl'] eqn:Hs; [|discriminate Hs].
  exists status. split; [done|].
  pose proof (sync_emits_batch_statistics_over_counts stub_times_out
                commit_ok tick_clock false (new_manager true svc_on)
                0%nat three_pending m' status w' tbl' Hs)
    as (_ & _ & _ & _ & _ & _ & Hf & _ & _ & He).
  split; [exact Hf|exact He].
Defined.

Lemma status_bar_ignores_emitted_status_witness :
  ∃ status,
    (sync stub_succeeds commit_ok tick_clock false (new_manager true svc_on)
       0%nat three_pending).1.1.2 = Some status ∧
    on_sync_status_changed status = None.
Proof.
  destruct (sync stub_succeeds commit_ok tick_clock false
              (new_manager true svc_on) 0%nat three_pending)
    as [[[m' [status|]] w'] tbl'] eqn:Hs; [|discriminate Hs].
  exists status. split; [done|].
  exact (status_bar_ignores_emitted_status stub_succeeds commit_ok tick_clock
           false (new_manager true svc_on) 0%nat three_pending
           m' status w' tbl' Hs).
Defined.
